(** * Liskov-substitution lecture programs: accounts, client and contracts

    The repository holds three small C++ programs, each with its own
    [main]:
    - a deposit-only / withdrawable account hierarchy used through base
      pointers by [BankClient] (module [LSPFollowed]);
    - [BankAccount] with the subclass [FixedDepositAccount], which
      forbids [withdraw] (module [HistoryConstraint]);
    - [BankAccount] with the subclass [CheatAccount], which withdraws
      without any check (module [ClassInvariants]).

    Balances and amounts are C++ [double]s; they are modelled by Rocq's
    primitive binary64 floats, so [+], [-], [<] and [>=] below are the
    IEEE 754 operations the compiled program performs, including
    rounding, infinities and NaN (each [double] expression is taken to
    be evaluated in binary64, round to nearest even, as on the usual
    targets). *)

From Stdlib Require Import ZArith Lia Bool List String Floats.
Import ListNotations.

(** ** Shared vocabulary *)

Local Open Scope float_scope.

(** C++ [x >= y] on doubles. *)
Definition geb (x y : float) : bool := y <=? x.
Notation "x >=? y" := (geb x y) (at level 70, no associativity) : float_scope.

(** One line written to [cout].  The text around the numbers is fixed by
    the constructor; the numbers are kept as numbers, their decimal
    rendering by [operator<<] is not modelled. *)
Inductive line : Type :=
| Deposited (amount : float) (account : string) (new_balance : float)
    (* Deposited: <amount> in <account> Account. New Balance: <new_balance> *)
| Withdrawn (amount : float) (account : string) (new_balance : float)
    (* Withdrawn: <amount> from <account> Account. New Balance: <new_balance> *)
| InsufficientFunds (account : string)
    (* Insufficient funds in <account> Account! *)
| AmountWithdrawn (remaining : float).
    (* Amount withdrawn. Remaining balance is <remaining> *)

(** The two standard exceptions the programs throw, with their message. *)
Inductive exception : Type :=
| invalid_argument (what : string)
| runtime_error (what : string).

(** Result of a call that may throw. *)
Inductive completion : Type :=
| Returned (output : list line)
| Thrown (e : exception).

(** How a caller sees one operation: it took effect, it was refused for
    lack of funds, or it was refused for another reason. *)
Inductive verdict : Type :=
| Success
| InsufficientFundsFailure
| OtherFailure.

Definition verdict_of_line (l : line) : verdict :=
  match l with
  | InsufficientFunds _ => InsufficientFundsFailure
  | _ => Success
  end.

Definition verdict_of_completion (c : completion) : verdict :=
  match c with
  | Returned _ => Success
  | Thrown (runtime_error what) =>
      if String.eqb what "Insufficient funds" then InsufficientFundsFailure
      else OtherFailure
  | Thrown (invalid_argument _) => OtherFailure
  end.

(** ** First program: the hierarchy that follows the principle *)

Module LSPFollowed.

(** [class DepositOnlyAccount]: the pure virtual [deposit]. *)
Class DepositOnlyAccount (A : Type) : Type :=
  { deposit : A -> float -> A * list line }.

(** [class WithdrawableAccount : public DepositOnlyAccount]: adds the
    pure virtual [withdraw]. *)
Class WithdrawableAccount (A : Type) : Type :=
  { withdrawable_deposits :: DepositOnlyAccount A;
    withdraw : A -> float -> A * list line }.

Module SavingAccount.
Record t : Type := { balance : float }.

Definition new : t := {| balance := 0 |}.

Definition deposit (self : t) (amount : float) : t * list line :=
  let balance' := balance self + amount in
  ({| balance := balance' |}, [Deposited amount "Savings" balance']).

Definition withdraw (self : t) (amount : float) : t * list line :=
  if balance self >=? amount then
    let balance' := balance self - amount in
    ({| balance := balance' |}, [Withdrawn amount "Savings" balance'])
  else
    (self, [InsufficientFunds "Savings"]).
End SavingAccount.

Module CurrentAccount.
Record t : Type := { balance : float }.

Definition new : t := {| balance := 0 |}.

Definition deposit (self : t) (amount : float) : t * list line :=
  let balance' := balance self + amount in
  ({| balance := balance' |}, [Deposited amount "Current" balance']).

Definition withdraw (self : t) (amount : float) : t * list line :=
  if balance self >=? amount then
    let balance' := balance self - amount in
    ({| balance := balance' |}, [Withdrawn amount "Current" balance'])
  else
    (self, [InsufficientFunds "Current"]).
End CurrentAccount.

Module FixedTermAccount.
Record t : Type := { balance : float }.

Definition new : t := {| balance := 0 |}.

Definition deposit (self : t) (amount : float) : t * list line :=
  let balance' := balance self + amount in
  ({| balance := balance' |}, [Deposited amount "Fixed Term" balance']).
End FixedTermAccount.

#[global] Instance SavingAccount_withdrawable :
  WithdrawableAccount SavingAccount.t :=
  {| withdrawable_deposits := {| deposit := SavingAccount.deposit |};
     withdraw := SavingAccount.withdraw |}.

#[global] Instance CurrentAccount_withdrawable :
  WithdrawableAccount CurrentAccount.t :=
  {| withdrawable_deposits := {| deposit := CurrentAccount.deposit |};
     withdraw := CurrentAccount.withdraw |}.

#[global] Instance FixedTermAccount_deposit_only :
  DepositOnlyAccount FixedTermAccount.t :=
  {| deposit := FixedTermAccount.deposit |}.

(** What a [WithdrawableAccount*] can point to. *)
Inductive WithdrawableObject : Type :=
| OfSaving (s : SavingAccount.t)
| OfCurrent (c : CurrentAccount.t).

(** What a [DepositOnlyAccount*] can point to. *)
Inductive DepositOnlyObject : Type :=
| OfFixedTerm (f : FixedTermAccount.t)
| OfWithdrawable (w : WithdrawableObject).

(** Virtual calls: the dynamic class of the object selects the body. *)
#[global] Instance WithdrawableObject_withdrawable :
  WithdrawableAccount WithdrawableObject :=
  {| withdrawable_deposits :=
       {| deposit := fun self amount =>
            match self with
            | OfSaving s =>
                let (s', out) := SavingAccount.deposit s amount in
                (OfSaving s', out)
            | OfCurrent c =>
                let (c', out) := CurrentAccount.deposit c amount in
                (OfCurrent c', out)
            end |};
     withdraw := fun self amount =>
       match self with
       | OfSaving s =>
           let (s', out) := SavingAccount.withdraw s amount in
           (OfSaving s', out)
       | OfCurrent c =>
           let (c', out) := CurrentAccount.withdraw c amount in
           (OfCurrent c', out)
       end |}.

#[global] Instance DepositOnlyObject_deposit_only :
  DepositOnlyAccount DepositOnlyObject :=
  {| deposit := fun self amount =>
       match self with
       | OfFixedTerm f =>
           let (f', out) := FixedTermAccount.deposit f amount in
           (OfFixedTerm f', out)
       | OfWithdrawable w =>
           let (w', out) := deposit w amount in
           (OfWithdrawable w', out)
       end |}.

Definition withdrawable_balance (w : WithdrawableObject) : float :=
  match w with
  | OfSaving s => SavingAccount.balance s
  | OfCurrent c => CurrentAccount.balance c
  end.

Definition deposit_only_balance (d : DepositOnlyObject) : float :=
  match d with
  | OfFixedTerm f => FixedTermAccount.balance f
  | OfWithdrawable w => withdrawable_balance w
  end.

Definition account_name (d : DepositOnlyObject) : string :=
  match d with
  | OfFixedTerm _ => "Fixed Term"
  | OfWithdrawable (OfSaving _) => "Savings"
  | OfWithdrawable (OfCurrent _) => "Current"
  end.

(** [class BankClient].  The two vectors of base pointers are lists of
    the objects pointed to: [main] allocates one object per pointer and
    nothing else refers to them. *)
Section Client.
Context {W D : Type} `{WithdrawableAccount W} `{DepositOnlyAccount D}.

Record BankClient : Type :=
  { withdrawableAccounts : list W;
    depositOnlyAccounts : list D }.

(** First loop of [processTransactions]. *)
Fixpoint process_withdrawable (accs : list W) : list W * list line :=
  match accs with
  | [] => ([], [])
  | acc :: rest =>
      let (acc1, out1) := deposit acc 1000 in
      let (acc2, out2) := withdraw acc1 500 in
      let (rest', out3) := process_withdrawable rest in
      (acc2 :: rest', out1 ++ out2 ++ out3)
  end.

(** Second loop of [processTransactions]. *)
Fixpoint process_deposit_only (accs : list D) : list D * list line :=
  match accs with
  | [] => ([], [])
  | acc :: rest =>
      let (acc1, out1) := deposit acc 5000 in
      let (rest', out2) := process_deposit_only rest in
      (acc1 :: rest', out1 ++ out2)
  end.

Definition processTransactions (self : BankClient)
  : BankClient * list line :=
  let (ws, out1) := process_withdrawable (withdrawableAccounts self) in
  let (ds, out2) := process_deposit_only (depositOnlyAccounts self) in
  ({| withdrawableAccounts := ws; depositOnlyAccounts := ds |},
   out1 ++ out2).
End Client.

Arguments BankClient W D : clear implicits.

(** [main]: the objects after the run and the console transcript. *)
Definition main : BankClient WithdrawableObject DepositOnlyObject * list line :=
  let withdrawableAccounts :=
    [OfSaving SavingAccount.new; OfCurrent CurrentAccount.new] in
  let depositOnlyAccounts := [OfFixedTerm FixedTermAccount.new] in
  let client :=
    {| withdrawableAccounts := withdrawableAccounts;
       depositOnlyAccounts := depositOnlyAccounts |} in
  processTransactions client.

(** A sequence of calls made through a [WithdrawableAccount*]. *)
Inductive operation : Type :=
| Deposit (amount : float)
| Withdraw (amount : float).

Definition perform {W : Type} `{WithdrawableAccount W}
    (acc : W) (op : operation) : W * list line :=
  match op with
  | Deposit amount => deposit acc amount
  | Withdraw amount => withdraw acc amount
  end.

(** Runs the calls in order; returns the object and, per call, what
    the caller sees of it. *)
Fixpoint perform_all {W : Type} `{WithdrawableAccount W}
    (acc : W) (ops : list operation) : W * list (list verdict) :=
  match ops with
  | [] => (acc, [])
  | op :: rest =>
      let (acc', out) := perform acc op in
      let (acc'', vs) := perform_all acc' rest in
      (acc'', map verdict_of_line out :: vs)
  end.

(** An implementation of the interface that only records the calls it
    receives, to observe which calls a client makes. *)
Definition Recorder : Type := list operation.

#[global] Instance Recorder_withdrawable : WithdrawableAccount Recorder :=
  {| withdrawable_deposits :=
       {| deposit := fun self amount => (self ++ [Deposit amount], []) |};
     withdraw := fun self amount => (self ++ [Withdraw amount], []) |}.

End LSPFollowed.

(** ** Second program: the history constraint and its violation *)

Module HistoryConstraint.

Module BankAccount.
Record t : Type := { balance : float }.

Definition new (b : float) : exception + t :=
  if b <? 0 then inl (invalid_argument "Balance can't be negative")
  else inr {| balance := b |}.

(** The object after the call comes with the completion: a throw
    leaves it as it was. *)
Definition withdraw (self : t) (amount : float) : t * completion :=
  if balance self - amount <? 0 then
    (self, Thrown (runtime_error "Insufficient funds"))
  else
    let balance' := balance self - amount in
    ({| balance := balance' |}, Returned [AmountWithdrawn balance']).
End BankAccount.

Module FixedDepositAccount.
Record t : Type := { base : BankAccount.t }.

Definition balance (self : t) : float := BankAccount.balance (base self).

Definition new (b : float) : exception + t :=
  match BankAccount.new b with
  | inl e => inl e
  | inr a => inr {| base := a |}
  end.

Definition withdraw (self : t) (amount : float) : t * completion :=
  (self, Thrown (runtime_error "Withdraw not allowed in Fixed Deposit")).
End FixedDepositAccount.

(** What a [BankAccount*] can point to, and the virtual [withdraw]. *)
Inductive BankAccountObject : Type :=
| OfBankAccount (a : BankAccount.t)
| OfFixedDepositAccount (f : FixedDepositAccount.t).

Definition balance (o : BankAccountObject) : float :=
  match o with
  | OfBankAccount a => BankAccount.balance a
  | OfFixedDepositAccount f => FixedDepositAccount.balance f
  end.

Definition withdraw (o : BankAccountObject) (amount : float)
  : BankAccountObject * completion :=
  match o with
  | OfBankAccount a =>
      let (a', c) := BankAccount.withdraw a amount in (OfBankAccount a', c)
  | OfFixedDepositAccount f =>
      let (f', c) := FixedDepositAccount.withdraw f amount in
      (OfFixedDepositAccount f', c)
  end.

(** [main]: [new BankAccount(100)], then [withdraw(100)]. *)
Definition main : completion :=
  match BankAccount.new 100 with
  | inl e => Thrown e
  | inr bankAccount => snd (withdraw (OfBankAccount bankAccount) 100)
  end.

(** The replacement sketched in the comment of [main]:
    [new FixedDepositAccount(100)], then [withdraw(50)]. *)
Definition main_with_fixed_deposit : completion :=
  match FixedDepositAccount.new 100 with
  | inl e => Thrown e
  | inr bankAccount => snd (withdraw (OfFixedDepositAccount bankAccount) 50)
  end.

End HistoryConstraint.

(** ** Third program: the class invariant and its violation *)

Module ClassInvariants.

Module BankAccount.
Record t : Type := { balance : float }.

Definition new (b : float) : exception + t :=
  if b <? 0 then inl (invalid_argument "Balance can't be negative")
  else inr {| balance := b |}.

Definition withdraw (self : t) (amount : float) : t * completion :=
  if balance self - amount <? 0 then
    (self, Thrown (runtime_error "Insufficient funds"))
  else
    let balance' := balance self - amount in
    ({| balance := balance' |}, Returned [AmountWithdrawn balance']).
End BankAccount.

Module CheatAccount.
Record t : Type := { base : BankAccount.t }.

Definition balance (self : t) : float := BankAccount.balance (base self).

Definition new (b : float) : exception + t :=
  match BankAccount.new b with
  | inl e => inl e
  | inr a => inr {| base := a |}
  end.

Definition withdraw (self : t) (amount : float) : t * completion :=
  let balance' := balance self - amount in
  ({| base := {| BankAccount.balance := balance' |} |},
   Returned [AmountWithdrawn balance']).
End CheatAccount.

Inductive BankAccountObject : Type :=
| OfBankAccount (a : BankAccount.t)
| OfCheatAccount (c : CheatAccount.t).

Definition balance (o : BankAccountObject) : float :=
  match o with
  | OfBankAccount a => BankAccount.balance a
  | OfCheatAccount c => CheatAccount.balance c
  end.

Definition withdraw (o : BankAccountObject) (amount : float)
  : BankAccountObject * completion :=
  match o with
  | OfBankAccount a =>
      let (a', c) := BankAccount.withdraw a amount in (OfBankAccount a', c)
  | OfCheatAccount x =>
      let (x', c) := CheatAccount.withdraw x amount in (OfCheatAccount x', c)
  end.

(** [main]: [new BankAccount(100)], then [withdraw(100)]. *)
Definition main : completion :=
  match BankAccount.new 100 with
  | inl e => Thrown e
  | inr bankAccount => snd (withdraw (OfBankAccount bankAccount) 100)
  end.

(** The replacement sketched in the comment of [main]:
    [new CheatAccount(100)], then [withdraw(200)]. *)
Definition main_with_cheat : BankAccountObject * completion + exception :=
  match CheatAccount.new 100 with
  | inl e => inr e
  | inr bankAccount => inl (withdraw (OfCheatAccount bankAccount) 200)
  end.

End ClassInvariants.

(** ** Vocabulary for the arithmetic of balances

    What the programs guarantee depends on how [balance + amount],
    [balance - amount] and the comparisons behave on doubles.  The
    facts are derived from the IEEE 754 specification [SpecFloat] that
    the primitive floats implement; the definitions below are the
    notions those derivations use. *)

Module Binary64.
Local Open Scope Z_scope.

(** Magnitude of mantissa [m] at exponent [e], counted in units of the
    smallest subnormal [2 ^ -1074]. *)
Definition scaled (m : positive) (e : Z) : Z := Zpos m * 2 ^ (e + 1074).

(** Exponent, above [-1074], of the unit in the last place of a
    53-bit float of magnitude [M]. *)
Definition ulp_exp (M : Z) : Z := Z.max (Z.log2 M + 1 - 53) 0.

(** [rounds_to s M r]: [r] carries sign [s] and a canonical magnitude
    between [M] rounded down and [M] rounded up to the grid of [M], or
    has overflowed to the infinity of sign [s]. *)
Definition rounds_to (s : bool) (M : Z) (r : spec_float) : Prop :=
  exists mr er,
    canonical_mantissa prec emax mr er = true /\
    (M / 2 ^ ulp_exp M * 2 ^ ulp_exp M <= scaled mr er
       <= (M / 2 ^ ulp_exp M + 1) * 2 ^ ulp_exp M) /\
    r = if er <=? 971 then S754_finite s mr er else S754_infinity s.

(** [rounded S r]: [r] is a rounding of the exact signed value [S]. *)
Definition rounded (S : Z) (r : spec_float) : Prop :=
  match S ?= 0 with
  | Eq => r = S754_zero false
  | Gt => rounds_to false S r
  | Lt => rounds_to true (- S) r
  end.

(** Signed value of a zero or finite float, in units of [2 ^ -1074]. *)
Definition sval (x : spec_float) : Z :=
  match x with
  | S754_finite s m e => cond_Zopp s (scaled m e)
  | _ => 0
  end.

(** Zeros and finite numbers, as opposed to infinities and NaN. *)
Definition is_real (x : spec_float) : bool :=
  match x with
  | S754_zero _ | S754_finite _ _ _ => true
  | _ => false
  end.
End Binary64.

(** The class invariant in the form the constructors test it: the guard
    [b < 0] is false. *)
Definition not_negative (b : float) : Prop := (b <? 0) = false.

(** ** Callers that keep an account for several calls *)

Module Callers.
Import LSPFollowed.

(** A caller of the second program holding a [BankAccount*]: it calls
    [withdraw] with each amount in turn, every call in its own [try]
    block, and keeps what each call did. *)
Fixpoint history_withdraw_each
    (o : HistoryConstraint.BankAccountObject) (amounts : list float)
  : HistoryConstraint.BankAccountObject * list completion :=
  match amounts with
  | [] => (o, [])
  | amount :: rest =>
      let (o', c) := HistoryConstraint.withdraw o amount in
      let (o'', cs) := history_withdraw_each o' rest in
      (o'', c :: cs)
  end.

(** The same caller in the third program. *)
Fixpoint invariants_withdraw_each
    (o : ClassInvariants.BankAccountObject) (amounts : list float)
  : ClassInvariants.BankAccountObject * list completion :=
  match amounts with
  | [] => (o, [])
  | amount :: rest =>
      let (o', c) := ClassInvariants.withdraw o amount in
      let (o'', cs) := invariants_withdraw_each o' rest in
      (o'', c :: cs)
  end.

(** What [processTransactions] does to one withdrawable account. *)
Definition round_trip (w : WithdrawableObject) : WithdrawableObject :=
  fst (withdraw (fst (deposit w 1000)) 500).

(** What it prints meanwhile. *)
Definition round_trip_output (w : WithdrawableObject) : list line :=
  snd (deposit w 1000) ++ snd (withdraw (fst (deposit w 1000)) 500).

(** The line printed by a refused [withdraw]. *)
Definition is_notice (l : line) : bool :=
  match l with
  | InsufficientFunds _ => true
  | _ => false
  end.

(** The amounts a sequence of calls deposits. *)
Fixpoint deposited_amounts (ops : list operation) : list float :=
  match ops with
  | [] => []
  | Deposit amount :: rest => amount :: deposited_amounts rest
  | Withdraw _ :: rest => deposited_amounts rest
  end.

End Callers.

(** ** The first program with its pointers

    [BankClient] stores base pointers, and nothing prevents one account
    from being listed twice or in both vectors (a [SavingAccount*]
    converts to either base pointer).  Here the accounts live in a
    store indexed by address and the vectors hold addresses.  A call
    through a dangling pointer, or through a [WithdrawableAccount*]
    that does not point to a withdrawable object, has no defined
    behaviour and yields [None]. *)

Module LSPFollowedStore.
Import LSPFollowed.

Definition pointer : Type := nat.

Definition store : Type := list DepositOnlyObject.

(** [*p = o] for an allocated address. *)
Fixpoint assign (h : store) (p : pointer) (o : DepositOnlyObject) : store :=
  match h, p with
  | [], _ => []
  | _ :: rest, O => o :: rest
  | x :: rest, S p' => x :: assign rest p' o
  end.

(** [acc->deposit(amount)] through a [DepositOnlyAccount*] or a
    [WithdrawableAccount*]. *)
Definition call_deposit (h : store) (acc : pointer) (amount : float)
  : option (store * list line) :=
  match nth_error h acc with
  | Some o => let (o', out) := deposit o amount in Some (assign h acc o', out)
  | None => None
  end.

(** [acc->withdraw(amount)] through a [WithdrawableAccount*]. *)
Definition call_withdraw (h : store) (acc : pointer) (amount : float)
  : option (store * list line) :=
  match nth_error h acc with
  | Some (OfWithdrawable w) =>
      let (w', out) := withdraw w amount in
      Some (assign h acc (OfWithdrawable w'), out)
  | _ => None
  end.

Record BankClient : Type :=
  { withdrawableAccounts : list pointer;
    depositOnlyAccounts : list pointer }.

Fixpoint process_withdrawable (h : store) (accs : list pointer)
  : option (store * list line) :=
  match accs with
  | [] => Some (h, [])
  | acc :: rest =>
      match call_deposit h acc 1000 with
      | None => None
      | Some (h1, out1) =>
          match call_withdraw h1 acc 500 with
          | None => None
          | Some (h2, out2) =>
              match process_withdrawable h2 rest with
              | None => None
              | Some (h3, out3) => Some (h3, out1 ++ out2 ++ out3)
              end
          end
      end
  end.

Fixpoint process_deposit_only (h : store) (accs : list pointer)
  : option (store * list line) :=
  match accs with
  | [] => Some (h, [])
  | acc :: rest =>
      match call_deposit h acc 5000 with
      | None => None
      | Some (h1, out1) =>
          match process_deposit_only h1 rest with
          | None => None
          | Some (h2, out2) => Some (h2, out1 ++ out2)
          end
      end
  end.

Definition processTransactions (h : store) (self : BankClient)
  : option (store * list line) :=
  match process_withdrawable h (withdrawableAccounts self) with
  | None => None
  | Some (h1, out1) =>
      match process_deposit_only h1 (depositOnlyAccounts self) with
      | None => None
      | Some (h2, out2) => Some (h2, out1 ++ out2)
      end
  end.

(** [main]: three allocations, at addresses 0, 1 and 2. *)
Definition main : option (store * list line) :=
  let h := [OfWithdrawable (OfSaving SavingAccount.new);
            OfWithdrawable (OfCurrent CurrentAccount.new);
            OfFixedTerm FixedTermAccount.new] in
  processTransactions h
    {| withdrawableAccounts := [0%nat; 1%nat];
       depositOnlyAccounts := [2%nat] |}.

(** The withdrawable object a pointer refers to, if it does. *)
Definition withdrawable_at (h : store) (p : pointer)
  : option WithdrawableObject :=
  match nth_error h p with
  | Some (OfWithdrawable w) => Some w
  | _ => None
  end.

(** One virtual call through a stored pointer: the receiver and the
    member function with its argument. *)
Definition call : Type := (pointer * operation)%type.

(** Making one call. *)
Definition run_call (h : store) (c : call) : option (store * list line) :=
  match snd c with
  | Deposit amount => call_deposit h (fst c) amount
  | Withdraw amount => call_withdraw h (fst c) amount
  end.

(** Making a sequence of calls, one after the other, on the same
    store. *)
Fixpoint run_calls (h : store) (cs : list call)
  : option (store * list line) :=
  match cs with
  | [] => Some (h, [])
  | c :: rest =>
      match run_call h c with
      | None => None
      | Some (h1, out1) =>
          match run_calls h1 rest with
          | None => None
          | Some (h2, out2) => Some (h2, out1 ++ out2)
          end
      end
  end.

(** The calls the specification of [processTransactions] prescribes,
    written from its words and not from the loops: for each entry of
    the withdrawable vector a [deposit(1000)] followed by a
    [withdraw(500)], then for each entry of the deposit-only vector a
    [deposit(5000)].  It reads the two vectors and nothing of the
    objects. *)
Definition scheduled_calls (self : BankClient) : list call :=
  flat_map (fun acc => [(acc, Deposit 1000); (acc, Withdraw 500)])
    (withdrawableAccounts self)
  ++ map (fun acc => (acc, Deposit 5000)) (depositOnlyAccounts self).

(** The calls of a sequence that one account receives, in order. *)
Definition calls_to (p : pointer) (cs : list call) : list operation :=
  map snd (filter (fun c => Nat.eqb (fst c) p) cs).

End LSPFollowedStore.

(** * Proofs *)

(** ** Binary64 arithmetic *)

Module Binary64Facts.
Import Binary64.
Local Open Scope Z_scope.

Lemma fexp_eq (e : Z) : fexp prec emax e = Z.max (e - 53) (-1074).
Proof. reflexivity. Qed.

Lemma digits2_pos_size (p : positive) : digits2_pos p = Pos.size p.
Proof. induction p; simpl; congruence. Qed.

Lemma digits2_pos_log2 (p : positive) :
  Zpos (digits2_pos p) = Z.log2 (Zpos p) + 1.
Proof.
  rewrite digits2_pos_size.
  destruct p; simpl; try reflexivity; rewrite Pos2Z.inj_succ; lia.
Qed.

Lemma scaled_pos m e : -1074 <= e -> 0 < scaled m e.
Proof.
  intros He. unfold scaled.
  apply Z.mul_pos_pos; [lia | apply Z.pow_pos_nonneg; lia].
Qed.

Lemma log2_scaled m e :
  -1074 <= e -> Z.log2 (scaled m e) = Z.log2 (Zpos m) + (e + 1074).
Proof.
  intros He. unfold scaled.
  rewrite Z.log2_mul_pow2 by lia. lia.
Qed.

Lemma canonical_exp m e :
  canonical_mantissa prec emax m e = true ->
  e = Z.max (Z.log2 (Zpos m) + 1 + e - 53) (-1074).
Proof.
  unfold canonical_mantissa. rewrite fexp_eq, digits2_pos_log2.
  intros H. apply Z.eqb_eq in H. lia.
Qed.

Lemma canonical_ulp_exp m e :
  canonical_mantissa prec emax m e = true ->
  -1074 <= e /\ e + 1074 = ulp_exp (scaled m e).
Proof.
  intros H. apply canonical_exp in H.
  assert (He : -1074 <= e) by lia.
  split; [exact He|].
  unfold ulp_exp. rewrite log2_scaled by exact He. lia.
Qed.

Lemma scaled_divide m e : -1074 <= e -> (2 ^ (e + 1074) | scaled m e).
Proof. intros _. exists (Zpos m). reflexivity. Qed.

Lemma ulp_exp_nonneg M : 0 <= ulp_exp M.
Proof. unfold ulp_exp. lia. Qed.

Lemma ulp_exp_mono A B : 0 < A -> A <= B -> ulp_exp A <= ulp_exp B.
Proof.
  intros HA HAB. unfold ulp_exp.
  pose proof (Z.log2_le_mono A B HAB). lia.
Qed.

(** Rounding [M] down to its own grid does not go below a representable
    value [B <= M]. *)
Lemma grid_floor B M :
  0 < B -> B <= M -> (2 ^ ulp_exp B | B) ->
  B <= M / 2 ^ ulp_exp M * 2 ^ ulp_exp M.
Proof.
  intros HB HBM [q Hq].
  pose proof (ulp_exp_mono B M HB HBM) as Hk.
  pose proof (ulp_exp_nonneg B) as HkB.
  assert (Hp : 0 < 2 ^ ulp_exp M) by (apply Z.pow_pos_nonneg; lia).
  destruct (Z.eq_dec (ulp_exp B) (ulp_exp M)) as [E|NE].
  - rewrite E in Hq. rewrite Hq at 1.
    apply Z.mul_le_mono_nonneg_r; [lia|].
    apply Z.div_le_lower_bound; [exact Hp | lia].
  - assert (Hlt : ulp_exp B < ulp_exp M) by lia.
    unfold ulp_exp in Hlt, Hk.
    assert (HkM : ulp_exp M = Z.log2 M + 1 - 53) by (unfold ulp_exp; lia).
    assert (HlB : Z.log2 B < Z.log2 M) by lia.
    assert (HM : 0 < M) by lia.
    pose proof (Z.log2_spec B HB) as [_ HB2].
    pose proof (Z.log2_spec M HM) as [HM1 _].
    pose proof (Z.log2_nonneg B) as HlB0.
    assert (Hpow : 2 ^ Z.succ (Z.log2 B) <= 2 ^ Z.log2 M)
      by (apply Z.pow_le_mono_r; lia).
    assert (Hsplit : 2 ^ Z.log2 M = 2 ^ 52 * 2 ^ ulp_exp M).
    { rewrite <- Z.pow_add_r by lia. f_equal. lia. }
    assert (Hq52 : 2 ^ 52 <= M / 2 ^ ulp_exp M).
    { apply Z.div_le_lower_bound; [exact Hp|]. lia. }
    apply Z.le_trans with (2 ^ Z.log2 M); [lia|].
    rewrite Hsplit. apply Z.mul_le_mono_nonneg_r; lia.
Qed.

(** Rounding [M] up to its own grid does not exceed a representable
    value [B > M]. *)
Lemma grid_ceil B M :
  0 < M -> M < B -> (2 ^ ulp_exp B | B) ->
  (M / 2 ^ ulp_exp M + 1) * 2 ^ ulp_exp M <= B.
Proof.
  intros HM HMB [q Hq].
  assert (Hk : ulp_exp M <= ulp_exp B) by (apply ulp_exp_mono; lia).
  pose proof (ulp_exp_nonneg M) as HkM.
  assert (Hp : 0 < 2 ^ ulp_exp M) by (apply Z.pow_pos_nonneg; lia).
  assert (Hsplit : 2 ^ ulp_exp B = 2 ^ (ulp_exp B - ulp_exp M) * 2 ^ ulp_exp M).
  { rewrite <- Z.pow_add_r by lia. f_equal. lia. }
  rewrite Hsplit, Z.mul_assoc in Hq.
  set (q' := q * 2 ^ (ulp_exp B - ulp_exp M)) in Hq.
  assert (Hlt : M / 2 ^ ulp_exp M < q').
  { apply Z.div_lt_upper_bound; [exact Hp | lia]. }
  rewrite Hq. apply Z.mul_le_mono_nonneg_r; lia.
Qed.

(** Canonical mantissa/exponent pairs are ordered lexicographically by
    exponent, then mantissa. *)
Lemma canonical_compare m1 e1 m2 e2 :
  canonical_mantissa prec emax m1 e1 = true ->
  canonical_mantissa prec emax m2 e2 = true ->
  match e1 ?= e2 with
  | Lt => Lt
  | Gt => Gt
  | Eq => Pos.compare_cont Eq m1 m2
  end = (scaled m1 e1 ?= scaled m2 e2).
Proof.
  intros H1 H2.
  pose proof (canonical_exp _ _ H1) as C1.
  pose proof (canonical_exp _ _ H2) as C2.
  assert (L1 : -1074 <= e1) by lia.
  assert (L2 : -1074 <= e2) by lia.
  pose proof (scaled_pos m1 e1 L1) as P1.
  pose proof (scaled_pos m2 e2 L2) as P2.
  pose proof (log2_scaled m1 e1 L1) as G1.
  pose proof (log2_scaled m2 e2 L2) as G2.
  destruct (Z.compare_spec e1 e2) as [E|E|E].
  - subst e2. unfold scaled.
    rewrite <- Zmult_compare_compat_r
      by (apply Z.lt_gt, Z.pow_pos_nonneg; lia).
    reflexivity.
  - symmetry. apply Z.compare_lt_iff.
    apply Z.log2_lt_cancel. lia.
  - symmetry. apply Z.compare_gt_iff.
    apply Z.log2_lt_cancel. lia.
Qed.


(** ** Right shifts of the rounding record *)

Lemma shr_1_m (r : shr_record) :
  0 <= shr_m r -> shr_m (shr_1 r) = shr_m r / 2.
Proof.
  destruct r as [m r s]. simpl. intros Hm.
  rewrite <- Z.div2_div.
  destruct m as [|[p|p|]|p]; try reflexivity; lia.
Qed.

Lemma pow2_xO (p : positive) : 2 ^ Zpos p~0 = 2 ^ Zpos p * 2 ^ Zpos p.
Proof. rewrite <- Z.pow_add_r by lia. f_equal. lia. Qed.

Lemma pow2_xI (p : positive) : 2 ^ Zpos p~1 = 2 * (2 ^ Zpos p * 2 ^ Zpos p).
Proof.
  rewrite <- pow2_xO, <- Z.pow_succ_r by lia. f_equal; lia.
Qed.

Lemma iter_shr_1_m (p : positive) :
  forall r : shr_record,
  0 <= shr_m r -> shr_m (iter_pos shr_1 p r) = shr_m r / 2 ^ Zpos p.
Proof.
  induction p as [p IH|p IH|]; intros r Hr; simpl iter_pos.
  - assert (H1 : 0 <= shr_m (shr_1 r))
      by (rewrite shr_1_m by exact Hr; apply Z.div_pos; lia).
    assert (H2 : 0 <= shr_m (iter_pos shr_1 p (shr_1 r)))
      by (rewrite IH by exact H1; apply Z.div_pos; [exact H1|apply Z.pow_pos_nonneg; lia]).
    rewrite IH by exact H2. rewrite IH by exact H1. rewrite shr_1_m by exact Hr.
    rewrite !Z.div_div by (try apply Z.pow_pos_nonneg; lia).
    f_equal. rewrite pow2_xI. lia.
  - assert (H2 : 0 <= shr_m (iter_pos shr_1 p r))
      by (rewrite IH by exact Hr; apply Z.div_pos; [exact Hr|apply Z.pow_pos_nonneg; lia]).
    rewrite IH by exact H2. rewrite IH by exact Hr.
    rewrite !Z.div_div by (try apply Z.pow_pos_nonneg; lia).
    f_equal. rewrite pow2_xO. lia.
  - rewrite shr_1_m by exact Hr. reflexivity.
Qed.

(** One call of [shr_fexp] on an exact positive mantissa whose exponent
    is not above the target exponent. *)
Lemma shr_fexp_exact (m : positive) (e : Z) :
  let n := fexp prec emax (Zpos (digits2_pos m) + e) - e in
  0 <= n ->
  exists r,
    shr_fexp prec emax (Zpos m) e loc_Exact = (r, e + n) /\
    shr_m r = Zpos m / 2 ^ n /\
    (n = 0 -> loc_of_shr_record r = loc_Exact).
Proof.
  intros n Hn. unfold shr_fexp. simpl Zdigits2. fold n.
  unfold shr_record_of_loc, shr.
  destruct n as [|p|p] eqn:En.
  - eexists. split; [rewrite Z.add_0_r; reflexivity|].
    split; [simpl; rewrite Z.div_1_r; reflexivity | reflexivity].
  - eexists. split; [reflexivity|]. split.
    + rewrite iter_shr_1_m by (simpl; lia). reflexivity.
    + discriminate.
  - lia.
Qed.

Lemma round_nearest_even_bounds m l :
  m <= round_nearest_even m l <= m + 1.
Proof.
  unfold round_nearest_even.
  destruct l as [|[| |]]; try destruct (Z.even m); lia.
Qed.


(** ** Rounding to nearest, specified by bounds *)

Lemma log2_in_range (b a : Z) :
  0 <= a -> 2 ^ a <= b < 2 ^ (a + 1) -> Z.log2 b = a.
Proof.
  intros Ha Hb. apply Z.log2_unique; [exact Ha|].
  replace (Z.succ a) with (a + 1) by lia. exact Hb.
Qed.

(** The closing shift of [binary_round_aux], when it loses no bit. *)
Lemma finish_round (s : bool) (p : positive) (E : Z) :
  let n2 := fexp prec emax (Zpos (digits2_pos p) + E) - E in
  -1074 <= E -> 0 <= n2 -> Zpos p mod 2 ^ n2 = 0 ->
  exists mr,
    canonical_mantissa prec emax mr (E + n2) = true /\
    scaled mr (E + n2) = scaled p E /\
    (let '(mrs'', e'') := shr_fexp prec emax (Zpos p) E loc_Exact in
     match shr_m mrs'' with
     | 0 => S754_zero s
     | Zpos m =>
         if e'' <=? emax - prec then S754_finite s m e'' else S754_infinity s
     | Zneg _ => S754_nan
     end) =
    (if E + n2 <=? 971 then S754_finite s mr (E + n2) else S754_infinity s).
Proof.
  intros n2 HE Hn2 Hmod.
  destruct (shr_fexp_exact p E) as (r2 & E2 & Hm2 & _); [exact Hn2|].
  fold n2 in E2, Hm2. rewrite E2. clear E2.
  assert (Hp2 : 0 < 2 ^ n2) by (apply Z.pow_pos_nonneg; lia).
  pose proof (Z.div_mod (Zpos p) (2 ^ n2) ltac:(lia)) as Hdm.
  rewrite Hmod, Z.add_0_r in Hdm.
  rewrite <- Hm2 in Hdm.
  destruct (shr_m r2) as [|mr|mr]; [exfalso; lia| |exfalso; lia].
  exists mr. split; [|split].
  - unfold canonical_mantissa. apply Z.eqb_eq.
    subst n2. rewrite !digits2_pos_log2, !fexp_eq in *.
    assert (Hlog : Z.log2 (Zpos p) = Z.log2 (Zpos mr) +
                     (Z.max (Z.log2 (Zpos p) + 1 + E - 53) (-1074) - E)).
    { rewrite Hdm at 1. rewrite Z.mul_comm.
      rewrite Z.log2_mul_pow2 by lia. lia. }
    lia.
  - unfold scaled. rewrite Hdm.
    replace (E + n2 + 1074) with (n2 + (E + 1074)) by lia.
    rewrite (Z.pow_add_r 2 n2) by lia. ring.
  - reflexivity.
Qed.

Lemma binary_round_aux_spec (s : bool) (mz : positive) (ez : Z) :
  -1074 <= ez ->
  ez <= fexp prec emax (Zpos (digits2_pos mz) + ez) ->
  rounds_to s (scaled mz ez)
    (binary_round_aux prec emax s (Zpos mz) ez loc_Exact).
Proof.
  intros Hez Hle.
  destruct (shr_fexp_exact mz ez) as (r1 & E1 & Hm1 & Hloc1);
    [apply Z.le_0_sub; exact Hle|].
  unfold binary_round_aux. rewrite E1. clear E1.
  rewrite digits2_pos_log2, fexp_eq in *.
  set (d := Z.log2 (Zpos mz) + 1) in *.
  set (n := Z.max (d + ez - 53) (-1074) - ez) in *.
  assert (Hn : 0 <= n) by lia.
  pose proof (Z.log2_spec (Zpos mz) (Pos2Z.is_pos mz)) as [Hlo Hhi].
  pose proof (Z.log2_nonneg (Zpos mz)) as Hd0.
  assert (Hk : ulp_exp (scaled mz ez) = n + (ez + 1074)).
  { unfold ulp_exp. rewrite log2_scaled by lia. lia. }
  assert (Hdiv : scaled mz ez / 2 ^ ulp_exp (scaled mz ez) = Zpos mz / 2 ^ n).
  { rewrite Hk. unfold scaled. rewrite (Z.pow_add_r 2 n) by lia.
    apply Z.div_mul_cancel_r; apply Z.pow_nonzero; lia. }
  unfold rounds_to. rewrite Hdiv, Hk.
  pose proof (round_nearest_even_bounds (shr_m r1) (loc_of_shr_record r1)) as Hb.
  set (m2 := round_nearest_even (shr_m r1) (loc_of_shr_record r1)) in *.
  assert (Hpk : 0 < 2 ^ (n + (ez + 1074))) by (apply Z.pow_pos_nonneg; lia).
  destruct (Z.eq_dec n 0) as [Hn0|Hn0].
  - (* the mantissa already fits: nothing is shifted out *)
    assert (Em2 : m2 = Zpos mz).
    { unfold m2. rewrite (Hloc1 Hn0), Hm1, Hn0. simpl. apply Z.div_1_r. }
    rewrite Em2.
    destruct (finish_round s mz (ez + n)) as (mr & Hc & Hs & Hr).
    + lia.
    + rewrite digits2_pos_log2, fexp_eq. fold d. lia.
    + rewrite digits2_pos_log2, fexp_eq. fold d.
      replace (Z.max (d + (ez + n) - 53) (-1074) - (ez + n)) with 0 by lia.
      apply Z.mod_1_r.
    + eexists mr, _. split; [exact Hc|]. split; [|exact Hr].
      rewrite Hs. unfold scaled. rewrite Hn0 in *.
      rewrite Z.pow_0_r, Z.div_1_r. simpl (0 + _). rewrite Z.add_0_r. lia.
  - (* [n] low bits are shifted out, leaving 53 bits *)
    assert (Hn' : n = d - 53) by lia.
    assert (Hsplit : 2 ^ Z.log2 (Zpos mz) = 2 ^ 52 * 2 ^ n).
    { rewrite <- Z.pow_add_r by lia. f_equal. lia. }
    assert (Hsplit' : 2 ^ Z.succ (Z.log2 (Zpos mz)) = 2 ^ 53 * 2 ^ n).
    { rewrite <- Z.pow_add_r by lia. f_equal. lia. }
    assert (Hpn : 0 < 2 ^ n) by (apply Z.pow_pos_nonneg; lia).
    assert (Hm1lo : 2 ^ 52 <= shr_m r1).
    { rewrite Hm1. apply Z.div_le_lower_bound; lia. }
    assert (Hm1hi : shr_m r1 < 2 ^ 53).
    { rewrite Hm1. apply Z.div_lt_upper_bound; lia. }
    destruct m2 as [|p2|p2] eqn:Em2; try (exfalso; lia).
    assert (Hcases : Z.log2 (Zpos p2) = 52 \/ Zpos p2 = 2 ^ 53).
    { destruct (Z.eq_dec (Zpos p2) (2 ^ 53)) as [?|?]; [right; assumption|left].
      apply log2_in_range; lia. }
    destruct (finish_round s p2 (ez + n)) as (mr & Hc & Hs & Hr).
    + lia.
    + rewrite digits2_pos_log2, fexp_eq.
      destruct Hcases as [H52|H53]; [rewrite H52|rewrite H53, Z.log2_pow2]; lia.
    + rewrite digits2_pos_log2, fexp_eq.
      destruct Hcases as [H52|H53].
      * rewrite H52.
        replace (Z.max (52 + 1 + (ez + n) - 53) (-1074) - (ez + n)) with 0 by lia.
        apply Z.mod_1_r.
      * rewrite H53 at 1. rewrite H53, Z.log2_pow2 by lia.
        replace (Z.max (53 + 1 + (ez + n) - 53) (-1074) - (ez + n)) with 1 by lia.
        reflexivity.
    + eexists mr, _. split; [exact Hc|]. split; [|exact Hr].
      rewrite Hs. unfold scaled.
      replace (ez + n + 1074) with (n + (ez + 1074)) by lia.
      rewrite <- Hm1. split; apply Z.mul_le_mono_nonneg_r; lia.
Qed.


(** ** Alignment, [binary_round] and [binary_normalize] *)

Lemma iter_xO (d m : positive) : Zpos (Pos.iter xO m d) = Zpos m * 2 ^ Zpos d.
Proof.
  induction d as [|d IH] using Pos.peano_ind.
  - simpl. lia.
  - rewrite Pos.iter_succ, Pos2Z.inj_xO, IH, Pos2Z.inj_succ, Z.pow_succ_r by lia.
    ring.
Qed.

Lemma shl_align_spec (mx : positive) (ex ex' : Z) :
  snd (shl_align mx ex ex') = Z.min ex ex' /\
  Zpos (fst (shl_align mx ex ex')) = Zpos mx * 2 ^ (ex - Z.min ex ex').
Proof.
  unfold shl_align.
  destruct (ex' - ex) as [|d|d] eqn:Ed; simpl.
  - replace (Z.min ex ex') with ex by lia. rewrite Z.sub_diag, Z.pow_0_r. lia.
  - replace (Z.min ex ex') with ex by lia. rewrite Z.sub_diag, Z.pow_0_r. lia.
  - replace (Z.min ex ex') with ex' by lia.
    replace (ex - ex') with (Zpos d) by lia.
    split; [reflexivity | apply iter_xO].
Qed.

Lemma binary_round_spec (s : bool) (m : positive) (e : Z) :
  -1074 <= e -> rounds_to s (scaled m e) (binary_round prec emax s m e).
Proof.
  intros He. unfold binary_round.
  pose proof (shl_align_spec m e (fexp prec emax (Zpos (digits2_pos m) + e)))
    as [Hsnd Hfst].
  destruct (shl_align m e (fexp prec emax (Zpos (digits2_pos m) + e)))
    as [mz ez].
  cbn [fst snd] in Hsnd, Hfst.
  rewrite digits2_pos_log2, fexp_eq in *.
  assert (Hez : -1074 <= ez) by lia.
  assert (Hsc : scaled mz ez = scaled m e).
  { unfold scaled. rewrite Hfst, <- Hsnd, <- Z.mul_assoc, <- Z.pow_add_r by lia.
    do 2 f_equal. lia. }
  rewrite <- Hsc. apply binary_round_aux_spec; [exact Hez|].
  rewrite digits2_pos_log2, fexp_eq, Hfst, Z.log2_mul_pow2 by lia.
  lia.
Qed.

Lemma binary_normalize_spec (z e : Z) :
  -1074 <= e ->
  rounded (z * 2 ^ (e + 1074)) (binary_normalize prec emax z e false).
Proof.
  intros He. unfold rounded.
  assert (Hp : 0 < 2 ^ (e + 1074)) by (apply Z.pow_pos_nonneg; lia).
  destruct z as [|m|m]; simpl binary_normalize.
  - reflexivity.
  - replace (Zpos m * 2 ^ (e + 1074) ?= 0) with Gt
      by (symmetry; apply Z.compare_gt_iff; lia).
    apply binary_round_spec. exact He.
  - replace (Zneg m * 2 ^ (e + 1074) ?= 0) with Lt
      by (symmetry; apply Z.compare_lt_iff; lia).
    replace (- (Zneg m * 2 ^ (e + 1074))) with (scaled m e)
      by (unfold scaled; lia).
    apply binary_round_spec. exact He.
Qed.

Lemma valid_finite s m e :
  valid_binary (S754_finite s m e) = true ->
  canonical_mantissa prec emax m e = true /\ e <= 971 /\ -1074 <= e.
Proof.
  simpl. unfold bounded. intros H. apply andb_true_iff in H as [Hc Hb].
  apply Z.leb_le in Hb. change (emax - prec) with 971 in Hb.
  pose proof (canonical_exp _ _ Hc). repeat split; try assumption; lia.
Qed.

Lemma aligned_value (s : bool) (m : positive) (e ez : Z) :
  -1074 <= ez -> ez <= e ->
  cond_Zopp s (Zpos (fst (shl_align m e ez))) * 2 ^ (ez + 1074)
  = cond_Zopp s (scaled m e).
Proof.
  intros Hz Hle.
  destruct (shl_align_spec m e ez) as [_ ->].
  replace (Z.min e ez) with ez by lia.
  unfold scaled.
  replace (e + 1074) with (e - ez + (ez + 1074)) by lia.
  rewrite (Z.pow_add_r 2 (e - ez)) by lia.
  unfold cond_Zopp. destruct s; ring.
Qed.

Lemma SFadd_finite sx mx ex sy my ey :
  valid_binary (S754_finite sx mx ex) = true ->
  valid_binary (S754_finite sy my ey) = true ->
  rounded (sval (S754_finite sx mx ex) + sval (S754_finite sy my ey))
    (SF64add (S754_finite sx mx ex) (S754_finite sy my ey)).
Proof.
  intros Hx Hy.
  apply valid_finite in Hx as (_ & _ & Hx), Hy as (_ & _ & Hy).
  unfold SF64add, SFadd. cbv zeta.
  set (ez := Z.min ex ey).
  simpl sval.
  rewrite <- (aligned_value sx mx ex ez), <- (aligned_value sy my ey ez)
    by (unfold ez; lia).
  rewrite <- Z.mul_add_distr_r.
  apply binary_normalize_spec. unfold ez; lia.
Qed.

Lemma SFsub_finite sx mx ex sy my ey :
  valid_binary (S754_finite sx mx ex) = true ->
  valid_binary (S754_finite sy my ey) = true ->
  rounded (sval (S754_finite sx mx ex) - sval (S754_finite sy my ey))
    (SF64sub (S754_finite sx mx ex) (S754_finite sy my ey)).
Proof.
  intros Hx Hy.
  apply valid_finite in Hx as (_ & _ & Hx), Hy as (_ & _ & Hy).
  unfold SF64sub, SFsub. cbv zeta.
  set (ez := Z.min ex ey).
  simpl sval.
  rewrite <- (aligned_value sx mx ex ez), <- (aligned_value sy my ey ez)
    by (unfold ez; lia).
  rewrite <- Z.mul_sub_distr_r.
  apply binary_normalize_spec. unfold ez; lia.
Qed.


(** ** Comparison through signed values *)

Lemma SFcompare_sval (x y : spec_float) :
  valid_binary x = true -> valid_binary y = true ->
  is_real x = true -> is_real y = true ->
  SFcompare x y = Some (sval x ?= sval y).
Proof.
  intros Vx Vy Rx Ry.
  destruct x as [sx|sx| |sx mx ex]; try discriminate;
  destruct y as [sy|sy| |sy my ey]; try discriminate.
  - reflexivity.
  - apply valid_finite in Vy as (_ & _ & Hy).
    pose proof (scaled_pos my ey Hy) as P.
    unfold SFcompare, sval, cond_Zopp.
    destruct sy; f_equal; symmetry;
      [apply Z.compare_gt_iff | apply Z.compare_lt_iff]; lia.
  - apply valid_finite in Vx as (_ & _ & Hx).
    pose proof (scaled_pos mx ex Hx) as P.
    unfold SFcompare, sval, cond_Zopp.
    destruct sx; f_equal; symmetry;
      [apply Z.compare_lt_iff | apply Z.compare_gt_iff]; lia.
  - apply valid_finite in Vx as (Cx & _ & Hx), Vy as (Cy & _ & Hy).
    pose proof (scaled_pos mx ex Hx) as Px.
    pose proof (scaled_pos my ey Hy) as Py.
    pose proof (canonical_compare mx ex my ey Cx Cy) as Hc.
    unfold SFcompare, sval, cond_Zopp. f_equal. destruct sx, sy.
    + rewrite Z.compare_opp, (Z.compare_antisym (scaled mx ex)), <- Hc.
      destruct (ex ?= ey); reflexivity.
    + symmetry. apply Z.compare_lt_iff. lia.
    + symmetry. apply Z.compare_gt_iff. lia.
    + exact Hc.
Qed.

Lemma SFltb_sval (x y : spec_float) :
  valid_binary x = true -> valid_binary y = true ->
  is_real x = true -> is_real y = true ->
  SFltb x y = (sval x <? sval y).
Proof.
  intros Vx Vy Rx Ry. unfold SFltb, Z.ltb.
  rewrite (SFcompare_sval x y Vx Vy Rx Ry). reflexivity.
Qed.

Lemma canonical_divide m e :
  canonical_mantissa prec emax m e = true ->
  (2 ^ ulp_exp (scaled m e) | scaled m e).
Proof.
  intros H. destruct (canonical_ulp_exp m e H) as [He <-].
  apply scaled_divide. exact He.
Qed.

Lemma canonical_exp_le m1 e1 m2 e2 :
  canonical_mantissa prec emax m1 e1 = true ->
  canonical_mantissa prec emax m2 e2 = true ->
  scaled m1 e1 <= scaled m2 e2 -> e1 <= e2.
Proof.
  intros C1 C2 Hle.
  pose proof (canonical_compare m1 e1 m2 e2 C1 C2) as Hc.
  destruct (Z.compare_spec e1 e2) as [E|E|E]; try lia.
  symmetry in Hc. apply Z.compare_gt_iff in Hc. lia.
Qed.

(** A rounded sum never falls below a representable value that the exact
    sum exceeds. *)
Lemma rounded_ge (S : Z) (r w : spec_float) :
  rounded S r -> valid_binary w = true -> is_real w = true ->
  sval w < S -> SFltb r w = false.
Proof.
  unfold rounded. intros Hr Vw Rw Hlt.
  destruct (Z.compare_spec S 0) as [E|E|E].
  - subst r. rewrite SFltb_sval by (try assumption; reflexivity).
    simpl sval. apply Z.ltb_ge. lia.
  - destruct Hr as (mr & er & Cr & [_ Hhi] & ->).
    destruct w as [sw|sw| |sw mw ew]; try discriminate; simpl in Hlt; [lia|].
    pose proof (valid_finite _ _ _ Vw) as (Cw & Hew & Hew').
    pose proof (scaled_pos mw ew Hew') as Pw.
    destruct sw; simpl in Hlt; [|lia].
    assert (Hle : scaled mr er <= scaled mw ew).
    { etransitivity; [exact Hhi|].
      apply grid_ceil; [lia | lia | apply canonical_divide; exact Cw]. }
    pose proof (canonical_exp_le _ _ _ _ Cr Cw Hle) as Hexp.
    replace (er <=? 971) with true by (symmetry; apply Z.leb_le; lia).
    rewrite SFltb_sval; try assumption; try reflexivity.
    + simpl. apply Z.ltb_ge. lia.
    + simpl. unfold bounded. rewrite Cr. apply Z.leb_le.
      change (emax - prec) with 971. lia.
  - destruct Hr as (mr & er & Cr & [Hlo _] & ->).
    pose proof (canonical_exp _ _ Cr) as Her.
    assert (Pr : 0 < scaled mr er) by (apply scaled_pos; lia).
    destruct (Z.leb_spec er 971) as [Hb|Hb].
    + assert (Vr : valid_binary (S754_finite false mr er) = true).
      { simpl. unfold bounded. rewrite Cr. apply Z.leb_le.
        change (emax - prec) with 971. lia. }
      rewrite SFltb_sval; try assumption; try reflexivity.
      apply Z.ltb_ge. simpl sval.
      destruct w as [sw|sw| |sw mw ew]; try discriminate; simpl; [lia|].
      pose proof (valid_finite _ _ _ Vw) as (Cw & Hew & Hew').
      pose proof (scaled_pos mw ew Hew') as Pw.
      destruct sw; simpl in *; [lia|].
      etransitivity; [|exact Hlo].
      apply grid_floor; [lia | lia | apply canonical_divide; exact Cw].
    + destruct w as [sw|sw| |sw mw ew]; try discriminate; reflexivity.
Qed.

(** A rounded sum never rises above a representable value that exceeds
    the exact sum. *)
Lemma rounded_le (S : Z) (r w : spec_float) :
  rounded S r -> valid_binary w = true -> is_real w = true ->
  S < sval w -> SFltb w r = false.
Proof.
  unfold rounded. intros Hr Vw Rw Hlt.
  destruct (Z.compare_spec S 0) as [E|E|E].
  - subst r. rewrite SFltb_sval by (try assumption; reflexivity).
    simpl sval. apply Z.ltb_ge. lia.
  - destruct Hr as (mr & er & Cr & [Hlo _] & ->).
    pose proof (canonical_exp _ _ Cr) as Her.
    assert (Pr : 0 < scaled mr er) by (apply scaled_pos; lia).
    destruct (Z.leb_spec er 971) as [Hb|Hb].
    + assert (Vr : valid_binary (S754_finite true mr er) = true).
      { simpl. unfold bounded. rewrite Cr. apply Z.leb_le.
        change (emax - prec) with 971. lia. }
      rewrite SFltb_sval; try assumption; try reflexivity.
      apply Z.ltb_ge. simpl sval.
      destruct w as [sw|sw| |sw mw ew]; try discriminate; simpl; [lia|].
      pose proof (valid_finite _ _ _ Vw) as (Cw & Hew & Hew').
      pose proof (scaled_pos mw ew Hew') as Pw.
      destruct sw; simpl in *; [|lia].
      assert (scaled mw ew <= scaled mr er); [|lia].
      etransitivity; [|exact Hlo].
      apply grid_floor; [lia | lia | apply canonical_divide; exact Cw].
    + destruct w as [sw|sw| |sw mw ew]; try discriminate; reflexivity.
  - destruct Hr as (mr & er & Cr & [_ Hhi] & ->).
    destruct w as [sw|sw| |sw mw ew]; try discriminate; simpl in Hlt; [lia|].
    pose proof (valid_finite _ _ _ Vw) as (Cw & Hew & Hew').
    pose proof (scaled_pos mw ew Hew') as Pw.
    destruct sw; simpl in Hlt; [lia|].
    assert (Hle : scaled mr er <= scaled mw ew).
    { etransitivity; [exact Hhi|].
      apply grid_ceil; [lia | lia | apply canonical_divide; exact Cw]. }
    pose proof (canonical_exp_le _ _ _ _ Cr Cw Hle) as Hexp.
    replace (er <=? 971) with true by (symmetry; apply Z.leb_le; lia).
    rewrite SFltb_sval; try assumption; try reflexivity.
    + simpl. apply Z.ltb_ge. lia.
    + simpl. unfold bounded. rewrite Cr. apply Z.leb_le.
      change (emax - prec) with 971. lia.
Qed.

(** Sign of a rounded value. *)
Lemma rounded_sign (S : Z) (r : spec_float) :
  rounded S r -> SFltb r (S754_zero false) = (S <? 0).
Proof.
  unfold rounded, Z.ltb. intros Hr.
  destruct (S ?= 0).
  - subst r. reflexivity.
  - destruct Hr as (mr & er & _ & _ & ->).
    destruct (er <=? 971); reflexivity.
  - destruct Hr as (mr & er & _ & _ & ->).
    destruct (er <=? 971); reflexivity.
Qed.


(** ** The operations of the specification, all cases *)

Lemma SFcompare_antisym (x y : spec_float) :
  SFcompare y x = option_map CompOpp (SFcompare x y).
Proof.
  destruct x as [sx|sx| |sx mx ex], y as [sy|sy| |sy my ey];
    try (unfold SFcompare, option_map; f_equal;
         first [ reflexivity | destruct sx; reflexivity
               | destruct sy; reflexivity | destruct sx, sy; reflexivity ]).
  unfold SFcompare, option_map. f_equal.
  destruct sx, sy; try reflexivity;
    rewrite (Z.compare_antisym ex ey);
    destruct (ex ?= ey); simpl; try reflexivity;
    rewrite (Pos.compare_cont_antisym mx my Eq); reflexivity.
Qed.


Lemma SFleb_SFltb (x y : spec_float) :
  SFleb x y = true -> SFltb y x = false.
Proof.
  unfold SFltb, SFleb. rewrite (SFcompare_antisym x y).
  destruct (SFcompare x y) as [[| |]|]; simpl; congruence.
Qed.

Lemma valid_zero s : valid_binary (S754_zero s) = true.
Proof. reflexivity. Qed.

Lemma SFsub_sign (x y : spec_float) :
  valid_binary x = true -> valid_binary y = true ->
  SFltb (SF64sub x y) (S754_zero false) = SFltb x y.
Proof.
  intros Vx Vy.
  destruct x as [sx|sx| |sx mx ex], y as [sy|sy| |sy my ey];
    try reflexivity; try (destruct sx; reflexivity);
    try (destruct sy; reflexivity); try (destruct sx, sy; reflexivity).
  rewrite (rounded_sign _ _ (SFsub_finite _ _ _ _ _ _ Vx Vy)).
  rewrite SFltb_sval by (try assumption; reflexivity).
  destruct (Z.ltb_spec (sval (S754_finite sx mx ex)) (sval (S754_finite sy my ey)));
    [apply Z.ltb_lt | apply Z.ltb_ge]; lia.
Qed.

Lemma SFadd_not_negative (x y : spec_float) :
  valid_binary x = true -> valid_binary y = true ->
  SFltb x (S754_zero false) = false -> SFltb y (S754_zero false) = false ->
  SFltb (SF64add x y) (S754_zero false) = false.
Proof.
  intros Vx Vy Hx Hy.
  destruct x as [sx|sx| |sx mx ex], y as [sy|sy| |sy my ey];
    try reflexivity; try assumption;
    try (destruct sx, sy; first [reflexivity | discriminate]).
  rewrite (rounded_sign _ _ (SFadd_finite _ _ _ _ _ _ Vx Vy)).
  rewrite SFltb_sval in Hx, Hy by (try assumption; reflexivity).
  apply Z.ltb_ge in Hx, Hy. apply Z.ltb_ge. simpl sval in *. lia.
Qed.

Lemma SFadd_positive (x y : spec_float) :
  valid_binary x = true -> valid_binary y = true ->
  SFltb (S754_zero false) y = true ->
  SFltb (SF64add x y) x = false.
Proof.
  intros Vx Vy Hy.
  destruct y as [sy|sy| |sy my ey]; try discriminate.
  - destruct sy; try discriminate.
    destruct x as [sx|sx| |sx mx ex]; try reflexivity; destruct sx; reflexivity.
  - destruct sy; try discriminate.
    destruct x as [sx|sx| |sx mx ex]; try reflexivity;
      try (destruct sx; reflexivity).
    apply (rounded_ge _ _ _ (SFadd_finite _ _ _ _ _ _ Vx Vy));
      [exact Vx | reflexivity |].
    apply valid_finite in Vy as (_ & _ & Hey).
    pose proof (scaled_pos my ey Hey).
    change (sval (S754_finite false my ey)) with (scaled my ey). lia.
Qed.

Lemma SFadd_negative (x y : spec_float) :
  valid_binary x = true -> valid_binary y = true ->
  SFltb y (S754_zero false) = true ->
  SFltb x (SF64add x y) = false.
Proof.
  intros Vx Vy Hy.
  destruct y as [sy|sy| |sy my ey]; try discriminate.
  - destruct sy; try discriminate.
    destruct x as [sx|sx| |sx mx ex]; try reflexivity; destruct sx; reflexivity.
  - destruct sy; try discriminate.
    destruct x as [sx|sx| |sx mx ex]; try reflexivity;
      try (destruct sx; reflexivity).
    apply (rounded_le _ _ _ (SFadd_finite _ _ _ _ _ _ Vx Vy));
      [exact Vx | reflexivity |].
    apply valid_finite in Vy as (_ & _ & Hey).
    pose proof (scaled_pos my ey Hey).
    change (sval (S754_finite true my ey)) with (- scaled my ey). lia.
Qed.

(** ** The same facts on primitive binary64 floats *)

Local Open Scope float_scope.

Lemma Prim2SF_zero : Prim2SF 0 = S754_zero false.
Proof. vm_compute. reflexivity. Qed.


Theorem leb_ltb (x y : float) : (x <=? y) = true -> (y <? x) = false.
Proof. rewrite ltb_spec, leb_spec. apply SFleb_SFltb. Qed.

Theorem sub_ltb_zero (x y : float) : (x - y <? 0) = (x <? y).
Proof.
  rewrite !ltb_spec, sub_spec, Prim2SF_zero.
  apply SFsub_sign; apply Prim2SF_valid.
Qed.

Theorem add_not_negative (x y : float) :
  (x <? 0) = false -> (y <? 0) = false -> (x + y <? 0) = false.
Proof.
  rewrite !ltb_spec, add_spec, Prim2SF_zero.
  apply SFadd_not_negative; apply Prim2SF_valid.
Qed.

Theorem add_positive (x y : float) : (0 <? y) = true -> (x + y <? x) = false.
Proof.
  rewrite !ltb_spec, add_spec, Prim2SF_zero.
  apply SFadd_positive; apply Prim2SF_valid.
Qed.

Theorem add_negative (x y : float) : (y <? 0) = true -> (x <? x + y) = false.
Proof.
  rewrite !ltb_spec, add_spec, Prim2SF_zero.
  apply SFadd_negative; apply Prim2SF_valid.
Qed.

Theorem zero_add_negative (y : float) : (y <? 0) = true -> 0 + y = y.
Proof.
  rewrite ltb_spec, Prim2SF_zero. intros Hy.
  apply Prim2SF_inj. rewrite add_spec, Prim2SF_zero.
  destruct (Prim2SF y) as [sy|sy| |sy my ey]; try discriminate; reflexivity.
Qed.

Theorem zero_add_positive (y : float) : (0 <? y) = true -> 0 + y = y.
Proof.
  rewrite ltb_spec, Prim2SF_zero. intros Hy.
  apply Prim2SF_inj. rewrite add_spec, Prim2SF_zero.
  destruct (Prim2SF y) as [sy|sy| |sy my ey]; try discriminate; reflexivity.
Qed.

End Binary64Facts.

(** ** The programs as they run *)

Import LSPFollowed.

Example LSPFollowed_main_transcript :
  snd LSPFollowed.main =
    [Deposited 1000 "Savings" 1000; Withdrawn 500 "Savings" 500;
     Deposited 1000 "Current" 1000; Withdrawn 500 "Current" 500;
     Deposited 5000 "Fixed Term" 5000].
Proof. vm_compute. reflexivity. Qed.

Example HistoryConstraint_main_returns :
  HistoryConstraint.main = Returned [AmountWithdrawn 0].
Proof. vm_compute. reflexivity. Qed.

Example HistoryConstraint_fixed_deposit_throws :
  HistoryConstraint.main_with_fixed_deposit =
    Thrown (runtime_error "Withdraw not allowed in Fixed Deposit").
Proof. vm_compute. reflexivity. Qed.

Example ClassInvariants_main_returns :
  ClassInvariants.main = Returned [AmountWithdrawn 0].
Proof. vm_compute. reflexivity. Qed.

Example ClassInvariants_cheat_goes_negative :
  ClassInvariants.main_with_cheat =
    inl (ClassInvariants.OfCheatAccount
           {| ClassInvariants.CheatAccount.base :=
                {| ClassInvariants.BankAccount.balance := -100 |} |},
         Returned [AmountWithdrawn (-100)]).
Proof. vm_compute. reflexivity. Qed.

(** Withdrawing 50 from an empty account is refused and changes nothing. *)
Example overdraw_empty_account :
  SavingAccount.withdraw SavingAccount.new 50
    = (SavingAccount.new, [InsufficientFunds "Savings"]) /\
  HistoryConstraint.BankAccount.withdraw
      {| HistoryConstraint.BankAccount.balance := 0 |} 50
    = ({| HistoryConstraint.BankAccount.balance := 0 |},
       Thrown (runtime_error "Insufficient funds")).
Proof. vm_compute. split; reflexivity. Qed.

(** ** The two guards of [withdraw] *)

(** [balance >= amount], the guard of the savings and current accounts,
    excludes a negative difference. *)
Lemma geb_sub_not_negative (balance amount : float) :
  (balance >=? amount) = true -> not_negative (balance - amount).
Proof.
  unfold geb, not_negative. intros H.
  rewrite Binary64Facts.sub_ltb_zero. apply Binary64Facts.leb_ltb. exact H.
Qed.


(** [balance - amount < 0], the guard of [BankAccount], is the
    comparison [balance < amount]. *)
Lemma bank_guard (balance amount : float) :
  (balance - amount <? 0) = (balance <? amount).
Proof. apply Binary64Facts.sub_ltb_zero. Qed.

Lemma leb_bank_guard (balance amount : float) :
  (amount <=? balance) = true -> (balance - amount <? 0) = false.
Proof. rewrite bank_guard. apply Binary64Facts.leb_ltb. Qed.

(** ** Construction *)

(** C10: [SavingAccount], [CurrentAccount] and [FixedTermAccount] take no
    initial balance; their constructors are constants of the class type,
    so they cannot fail, and every fresh instance has balance exactly 0. *)
Theorem fresh_accounts_are_empty :
  SavingAccount.balance SavingAccount.new = 0 /\
  CurrentAccount.balance CurrentAccount.new = 0 /\
  FixedTermAccount.balance FixedTermAccount.new = 0.
Proof. repeat split. Qed.

Lemma bank_account_new_not_negative (b : float) :
  (forall a, HistoryConstraint.BankAccount.new b = inr a ->
     not_negative (HistoryConstraint.BankAccount.balance a)) /\
  (forall a, ClassInvariants.BankAccount.new b = inr a ->
     not_negative (ClassInvariants.BankAccount.balance a)).
Proof.
  unfold HistoryConstraint.BankAccount.new, ClassInvariants.BankAccount.new,
    not_negative.
  split; intros a; destruct (b <? 0) eqn:E; try discriminate;
    intros [= <-]; exact E.
Qed.

(** C6: constructing a [BankAccount] (and so a [FixedDepositAccount] or a
    [CheatAccount], which delegate to it) with a negative initial balance
    throws [invalid_argument], the failure the specification calls
    InvalidConstruction; with a non-negative initial balance [b] it
    returns an account whose balance is exactly [b]; and no constructed
    account has a negative balance. *)
Theorem construction_checks_balance (b : float) :
  ((b <? 0) = true ->
     HistoryConstraint.BankAccount.new b
       = inl (invalid_argument "Balance can't be negative") /\
     HistoryConstraint.FixedDepositAccount.new b
       = inl (invalid_argument "Balance can't be negative") /\
     ClassInvariants.BankAccount.new b
       = inl (invalid_argument "Balance can't be negative") /\
     ClassInvariants.CheatAccount.new b
       = inl (invalid_argument "Balance can't be negative")) /\
  ((0 <=? b) = true ->
     HistoryConstraint.BankAccount.new b
       = inr {| HistoryConstraint.BankAccount.balance := b |} /\
     HistoryConstraint.FixedDepositAccount.new b
       = inr {| HistoryConstraint.FixedDepositAccount.base :=
                  {| HistoryConstraint.BankAccount.balance := b |} |} /\
     ClassInvariants.BankAccount.new b
       = inr {| ClassInvariants.BankAccount.balance := b |} /\
     ClassInvariants.CheatAccount.new b
       = inr {| ClassInvariants.CheatAccount.base :=
                  {| ClassInvariants.BankAccount.balance := b |} |}) /\
  ((forall a, HistoryConstraint.BankAccount.new b = inr a ->
      (HistoryConstraint.BankAccount.balance a <? 0) = false) /\
   (forall a, ClassInvariants.BankAccount.new b = inr a ->
      (ClassInvariants.BankAccount.balance a <? 0) = false)).
Proof.
  split; [|split].
  - intros H.
    unfold HistoryConstraint.FixedDepositAccount.new,
      ClassInvariants.CheatAccount.new,
      HistoryConstraint.BankAccount.new, ClassInvariants.BankAccount.new.
    rewrite H. repeat split.
  - intros H. apply Binary64Facts.leb_ltb in H.
    unfold HistoryConstraint.FixedDepositAccount.new,
      ClassInvariants.CheatAccount.new,
      HistoryConstraint.BankAccount.new, ClassInvariants.BankAccount.new.
    rewrite H. repeat split.
  - exact (bank_account_new_not_negative b).
Qed.

Lemma construction_checks_balance_witness :
  ((-10 <? 0) = true /\
   HistoryConstraint.BankAccount.new (-10)
     = inl (invalid_argument "Balance can't be negative")) /\
  ((0 <=? 100) = true /\
   HistoryConstraint.BankAccount.new 100
     = inr {| HistoryConstraint.BankAccount.balance := 100 |}).
Proof.
  split.
  - split; [reflexivity|].
    apply (proj1 (construction_checks_balance (-10))). reflexivity.
  - split; [reflexivity|].
    apply (proj1 (proj2 (construction_checks_balance 100))). reflexivity.
Defined.

(** ** Deposit *)

(** C3, counterexample: a savings account holding 1e17 (reached from a
    fresh account by [deposit(1e17)]) is left at 1e17 by [deposit(1)],
    which returns and prints its line with the balance 1e17: the
    balance did not increase by 1, it did not increase at all, and the
    increase read back as [balance' - balance] is 0. *)
Lemma deposit_exact_counterexample :
  fst (SavingAccount.deposit SavingAccount.new 1e17)
    = {| SavingAccount.balance := 1e17 |} /\
  (0 <? 1) = true /\
  SavingAccount.deposit {| SavingAccount.balance := 1e17 |} 1
    = ({| SavingAccount.balance := 1e17 |},
       [Deposited 1 "Savings" 1e17]) /\
  (1e17 <?
   SavingAccount.balance
     (fst (SavingAccount.deposit {| SavingAccount.balance := 1e17 |} 1)))
    = false /\
  SavingAccount.balance
    (fst (SavingAccount.deposit {| SavingAccount.balance := 1e17 |} 1))
  - 1e17 = 0.
Proof. vm_compute. repeat split. Qed.

(** C3, as amended: for every class with a [deposit] and every amount
    [a > 0], [deposit(a)] returns normally, prints its line and sets
    the balance to the double sum [balance + a] that
    [balance += amount] computes.  That sum is never below the previous
    balance, and on a zero balance it is exactly [a]; on other balances
    it is [balance + a] rounded, which can be the previous balance
    itself. *)
Theorem deposit_adds_amount (d : DepositOnlyObject) (amount : float) :
  (0 <? amount) = true ->
  deposit_only_balance (fst (deposit d amount))
    = deposit_only_balance d + amount /\
  (deposit_only_balance (fst (deposit d amount)) <? deposit_only_balance d)
    = false /\
  snd (deposit d amount)
    = [Deposited amount (account_name d) (deposit_only_balance d + amount)] /\
  (deposit_only_balance d = 0 ->
     deposit_only_balance (fst (deposit d amount)) = amount /\
     (0 <? deposit_only_balance (fst (deposit d amount))) = true).
Proof.
  intros Hpos.
  assert (E : deposit_only_balance (fst (deposit d amount))
              = deposit_only_balance d + amount)
    by (destruct d as [f|[s|c]]; reflexivity).
  rewrite E. split; [reflexivity|].
  split; [apply Binary64Facts.add_positive; exact Hpos|].
  split; [destruct d as [f|[s|c]]; reflexivity|].
  intros Hzero. rewrite Hzero.
  rewrite (Binary64Facts.zero_add_positive amount Hpos).
  split; [reflexivity | exact Hpos].
Qed.

Lemma deposit_adds_amount_witness :
  (0 <? 1000) = true /\
  deposit_only_balance
    (fst (deposit (OfWithdrawable (OfSaving {| SavingAccount.balance := 100 |}))
            1000))
    = 100 + 1000 /\
  deposit_only_balance (OfFixedTerm FixedTermAccount.new) = 0 /\
  deposit_only_balance
    (fst (deposit (OfFixedTerm FixedTermAccount.new) 1000)) = 1000.
Proof.
  split; [reflexivity|].
  split.
  - apply (deposit_adds_amount
             (OfWithdrawable (OfSaving {| SavingAccount.balance := 100 |}))
             1000).
    reflexivity.
  - split; [reflexivity|].
    apply (proj2 (proj2 (proj2 (deposit_adds_amount
                                  (OfFixedTerm FixedTermAccount.new) 1000
                                  ltac:(reflexivity))))).
    reflexivity.
Defined.

(** C9, counterexample: a savings account holding 1e17 (reached from a
    fresh account by [deposit(1e17)]) is left at 1e17 by [deposit(-1)]:
    the negative deposit did not strictly decrease the balance. *)
Lemma negative_deposit_counterexample :
  fst (SavingAccount.deposit SavingAccount.new 1e17)
    = {| SavingAccount.balance := 1e17 |} /\
  (-1 <? 0) = true /\
  fst (SavingAccount.deposit {| SavingAccount.balance := 1e17 |} (-1))
    = {| SavingAccount.balance := 1e17 |} /\
  (SavingAccount.balance
     (fst (SavingAccount.deposit {| SavingAccount.balance := 1e17 |} (-1)))
   <? 1e17) = false.
Proof. vm_compute. repeat split. Qed.

(** C9, as amended: [deposit] validates nothing.  For every class with a
    [deposit] and every amount [a], including [a <= 0], the balance
    becomes the double sum [balance + a].  A negative amount never
    raises the balance, and deposited on a zero balance it leaves
    exactly that negative amount: [deposit] does not protect the
    invariant. *)
Theorem deposit_is_unchecked (d : DepositOnlyObject) (amount : float) :
  deposit_only_balance (fst (deposit d amount))
    = deposit_only_balance d + amount /\
  ((amount <? 0) = true ->
     (deposit_only_balance d <? deposit_only_balance (fst (deposit d amount)))
       = false) /\
  ((amount <? 0) = true -> deposit_only_balance d = 0 ->
     deposit_only_balance (fst (deposit d amount)) = amount /\
     (deposit_only_balance (fst (deposit d amount)) <? 0) = true).
Proof.
  assert (E : deposit_only_balance (fst (deposit d amount))
              = deposit_only_balance d + amount)
    by (destruct d as [f|[s|c]]; reflexivity).
  rewrite E. split; [reflexivity|]. split.
  - apply Binary64Facts.add_negative.
  - intros Hneg Hzero. rewrite Hzero.
    rewrite (Binary64Facts.zero_add_negative amount Hneg).
    split; [reflexivity | exact Hneg].
Qed.

Lemma deposit_is_unchecked_witness :
  (-50 <? 0) = true /\
  deposit_only_balance (OfFixedTerm FixedTermAccount.new) = 0 /\
  deposit_only_balance
    (fst (deposit (OfFixedTerm FixedTermAccount.new) (-50))) = -50.
Proof.
  split; [reflexivity|]. split; [reflexivity|].
  apply (proj2 (proj2 (deposit_is_unchecked
                         (OfFixedTerm FixedTermAccount.new) (-50))));
    reflexivity.
Defined.

(** ** Withdraw *)

(** What [SavingAccount::withdraw] and [CurrentAccount::withdraw] do,
    seen through a [WithdrawableAccount*]. *)
Lemma withdrawable_withdraw_funded (w : WithdrawableObject) (amount : float) :
  (withdrawable_balance w >=? amount) = true ->
  withdrawable_balance (fst (withdraw w amount))
    = withdrawable_balance w - amount /\
  snd (withdraw w amount)
    = [Withdrawn amount (account_name (OfWithdrawable w))
         (withdrawable_balance w - amount)].
Proof.
  intros H. destruct w as [s|c]; cbn in *;
    unfold SavingAccount.withdraw, CurrentAccount.withdraw, geb in *;
    rewrite H; split; reflexivity.
Qed.

Lemma withdrawable_withdraw_refused (w : WithdrawableObject) (amount : float) :
  (withdrawable_balance w >=? amount) = false ->
  withdraw w amount
    = (w, [InsufficientFunds (account_name (OfWithdrawable w))]).
Proof.
  intros H. destruct w as [s|c]; cbn in *;
    unfold SavingAccount.withdraw, CurrentAccount.withdraw, geb in *;
    rewrite H; reflexivity.
Qed.




(** C5, counterexample: [FixedDepositAccount] exposes [withdraw] through
    [BankAccount*] and rejects [withdraw(50)] on a balance of 100. *)
Lemma fixed_deposit_rejects_counterexample :
  HistoryConstraint.FixedDepositAccount.new 100
    = inr {| HistoryConstraint.FixedDepositAccount.base :=
               {| HistoryConstraint.BankAccount.balance := 100 |} |} /\
  (0 <? 50) = true /\ (50 <=? 100) = true /\
  verdict_of_completion
    (snd (HistoryConstraint.withdraw
            (HistoryConstraint.OfFixedDepositAccount
               {| HistoryConstraint.FixedDepositAccount.base :=
                    {| HistoryConstraint.BankAccount.balance := 100 |} |})
            50))
    = OtherFailure.
Proof. vm_compute. repeat split. Qed.

(** C5, as amended: every class that exposes [withdraw], other than
    [FixedDepositAccount], accepts a withdrawal of [a] whenever
    [0 < a <= balance]: [SavingAccount], [CurrentAccount], both
    [BankAccount]s and [CheatAccount]. *)
Theorem funded_withdraw_is_accepted (amount : float) :
  (0 <? amount) = true ->
  (forall w : WithdrawableObject,
     (amount <=? withdrawable_balance w) = true ->
     map verdict_of_line (snd (withdraw w amount)) = [Success]) /\
  (forall a : HistoryConstraint.BankAccount.t,
     (amount <=? HistoryConstraint.BankAccount.balance a) = true ->
     verdict_of_completion
       (snd (HistoryConstraint.withdraw (HistoryConstraint.OfBankAccount a)
               amount))
       = Success) /\
  (forall o : ClassInvariants.BankAccountObject,
     (amount <=? ClassInvariants.balance o) = true ->
     verdict_of_completion (snd (ClassInvariants.withdraw o amount))
       = Success).
Proof.
  intros _. split; [|split].
  - intros w H.
    destruct (withdrawable_withdraw_funded w amount H) as [_ Hout].
    rewrite Hout. reflexivity.
  - intros a H. cbn.
    unfold HistoryConstraint.BankAccount.withdraw.
    rewrite (leb_bank_guard _ _ H). reflexivity.
  - intros [a|c] H; cbn in *.
    + unfold ClassInvariants.BankAccount.withdraw.
      rewrite (leb_bank_guard _ _ H). reflexivity.
    + reflexivity.
Qed.

Lemma funded_withdraw_is_accepted_witness :
  (0 <? 100) = true /\ (100 <=? 100) = true /\
  verdict_of_completion
    (snd (HistoryConstraint.withdraw
            (HistoryConstraint.OfBankAccount
               {| HistoryConstraint.BankAccount.balance := 100 |}) 100))
    = Success.
Proof.
  split; [reflexivity|]. split; [reflexivity|].
  apply (proj1 (proj2 (funded_withdraw_is_accepted 100 eq_refl))
           {| HistoryConstraint.BankAccount.balance := 100 |}).
  reflexivity.
Defined.

(** ** The class invariant *)

(** C1, counterexample: depositing -50 into a fresh savings account
    leaves -50, and [CheatAccount(100).withdraw(200)] leaves -100; both
    accounts had a balance [>= 0] before the call and not after. *)
Lemma balance_invariant_counterexample :
  ((0 <=? SavingAccount.balance SavingAccount.new) = true /\
   (0 <=? SavingAccount.balance
            (fst (SavingAccount.deposit SavingAccount.new (-50)))) = false) /\
  (ClassInvariants.CheatAccount.new 100
     = inr {| ClassInvariants.CheatAccount.base :=
                {| ClassInvariants.BankAccount.balance := 100 |} |} /\
   (0 <=? 100) = true /\
   (0 <=? ClassInvariants.CheatAccount.balance
            (fst (ClassInvariants.CheatAccount.withdraw
                    {| ClassInvariants.CheatAccount.base :=
                         {| ClassInvariants.BankAccount.balance := 100 |} |}
                    200))) = false).
Proof. vm_compute. repeat split. Qed.

(** C1, as amended: for [SavingAccount], [CurrentAccount],
    [FixedTermAccount], [BankAccount] and [FixedDepositAccount] the
    balance is not negative after construction (also for a
    [CheatAccount]), and a balance that is not negative stays so across
    [deposit] of an amount that is not negative and across every
    [withdraw].  "Not negative" is the constructor's own test: [b < 0]
    is false. *)
Theorem balance_stays_not_negative :
  (not_negative (SavingAccount.balance SavingAccount.new) /\
   not_negative (CurrentAccount.balance CurrentAccount.new) /\
   not_negative (FixedTermAccount.balance FixedTermAccount.new)) /\
  (forall b a, HistoryConstraint.BankAccount.new b = inr a ->
     not_negative (HistoryConstraint.BankAccount.balance a)) /\
  (forall b f, HistoryConstraint.FixedDepositAccount.new b = inr f ->
     not_negative (HistoryConstraint.FixedDepositAccount.balance f)) /\
  (forall b a, ClassInvariants.BankAccount.new b = inr a ->
     not_negative (ClassInvariants.BankAccount.balance a)) /\
  (forall b c, ClassInvariants.CheatAccount.new b = inr c ->
     not_negative (ClassInvariants.CheatAccount.balance c)) /\
  (forall (d : DepositOnlyObject) (amount : float),
     not_negative amount -> not_negative (deposit_only_balance d) ->
     not_negative (deposit_only_balance (fst (deposit d amount)))) /\
  (forall (w : WithdrawableObject) (amount : float),
     not_negative (withdrawable_balance w) ->
     not_negative (withdrawable_balance (fst (withdraw w amount)))) /\
  (forall (o : HistoryConstraint.BankAccountObject) (amount : float),
     not_negative (HistoryConstraint.balance o) ->
     not_negative
       (HistoryConstraint.balance (fst (HistoryConstraint.withdraw o amount)))) /\
  (forall (a : ClassInvariants.BankAccount.t) (amount : float),
     not_negative (ClassInvariants.BankAccount.balance a) ->
     not_negative
       (ClassInvariants.BankAccount.balance
          (fst (ClassInvariants.BankAccount.withdraw a amount)))).
Proof.
  repeat match goal with |- _ /\ _ => split end;
    try (vm_compute; reflexivity).
  - intros b. apply bank_account_new_not_negative.
  - intros b f. unfold HistoryConstraint.FixedDepositAccount.new.
    destruct (HistoryConstraint.BankAccount.new b) as [e|a] eqn:E;
      [discriminate|].
    intros [= <-]. exact (proj1 (bank_account_new_not_negative b) a E).
  - intros b. apply bank_account_new_not_negative.
  - intros b c. unfold ClassInvariants.CheatAccount.new.
    destruct (ClassInvariants.BankAccount.new b) as [e|a] eqn:E;
      [discriminate|].
    intros [= <-]. exact (proj2 (bank_account_new_not_negative b) a E).
  - intros d amount Ha Hb.
    replace (deposit_only_balance (fst (deposit d amount)))
      with (deposit_only_balance d + amount)
      by (destruct d as [f|[s|c]]; reflexivity).
    apply Binary64Facts.add_not_negative; assumption.
  - intros w amount Hb.
    destruct (withdrawable_balance w >=? amount) eqn:E.
    + rewrite (proj1 (withdrawable_withdraw_funded w amount E)).
      apply geb_sub_not_negative. exact E.
    + rewrite (withdrawable_withdraw_refused w amount E). exact Hb.
  - intros [a|f] amount Hb; cbn in *.
    + unfold HistoryConstraint.BankAccount.withdraw.
      destruct (HistoryConstraint.BankAccount.balance a - amount <? 0) eqn:E;
        cbn; [exact Hb | exact E].
    + exact Hb.
  - intros a amount Hb.
    unfold ClassInvariants.BankAccount.withdraw.
    destruct (ClassInvariants.BankAccount.balance a - amount <? 0) eqn:E;
      cbn; [exact Hb | exact E].
Qed.

Lemma balance_stays_not_negative_witness :
  (not_negative 50 /\
   not_negative (deposit_only_balance (OfFixedTerm FixedTermAccount.new)) /\
   not_negative
     (deposit_only_balance
        (fst (deposit (OfFixedTerm FixedTermAccount.new) 50)))) /\
  (not_negative
     (withdrawable_balance (OfSaving {| SavingAccount.balance := 100 |})) /\
   not_negative
     (withdrawable_balance
        (fst (withdraw (OfSaving {| SavingAccount.balance := 100 |}) 200)))).
Proof.
  destruct balance_stays_not_negative
    as (_ & _ & _ & _ & _ & Hdeposit & Hwithdraw & _).
  split.
  - split; [reflexivity|]. split; [reflexivity|].
    apply Hdeposit; reflexivity.
  - split; [reflexivity|]. apply Hwithdraw. reflexivity.
Defined.

(** ** Substitution among the withdrawable classes *)

Lemma perform_agrees (w1 w2 : WithdrawableObject) (op : operation) :
  withdrawable_balance w1 = withdrawable_balance w2 ->
  withdrawable_balance (fst (perform w1 op))
    = withdrawable_balance (fst (perform w2 op)) /\
  map verdict_of_line (snd (perform w1 op))
    = map verdict_of_line (snd (perform w2 op)).
Proof.
  intros Hb. destruct op as [amount|amount].
  - destruct w1 as [[b1]|[b1]], w2 as [[b2]|[b2]]; cbn in *; subst b2;
      split; reflexivity.
  - change (perform w1 (Withdraw amount)) with (withdraw w1 amount).
    change (perform w2 (Withdraw amount)) with (withdraw w2 amount).
    destruct (withdrawable_balance w1 >=? amount) eqn:E.
    + destruct (withdrawable_withdraw_funded w1 amount E) as [-> ->].
      rewrite Hb in E.
      destruct (withdrawable_withdraw_funded w2 amount E) as [-> ->].
      rewrite Hb. split; reflexivity.
    + rewrite (withdrawable_withdraw_refused w1 amount E).
      rewrite Hb in E.
      rewrite (withdrawable_withdraw_refused w2 amount E).
      split; [exact Hb | reflexivity].
Qed.

(** C4, counterexample: a [BankAccount] and a [FixedDepositAccount], both
    holding 100 and both asked to [withdraw(50)]: the first returns and
    holds 50, the second throws and holds 100. *)
Lemma substitution_counterexample :
  HistoryConstraint.balance
    (HistoryConstraint.OfBankAccount
       {| HistoryConstraint.BankAccount.balance := 100 |})
  = HistoryConstraint.balance
      (HistoryConstraint.OfFixedDepositAccount
         {| HistoryConstraint.FixedDepositAccount.base :=
              {| HistoryConstraint.BankAccount.balance := 100 |} |}) /\
  HistoryConstraint.withdraw
    (HistoryConstraint.OfBankAccount
       {| HistoryConstraint.BankAccount.balance := 100 |}) 50
  = (HistoryConstraint.OfBankAccount
       {| HistoryConstraint.BankAccount.balance := 50 |},
     Returned [AmountWithdrawn 50]) /\
  HistoryConstraint.withdraw
    (HistoryConstraint.OfFixedDepositAccount
       {| HistoryConstraint.FixedDepositAccount.base :=
            {| HistoryConstraint.BankAccount.balance := 100 |} |}) 50
  = (HistoryConstraint.OfFixedDepositAccount
       {| HistoryConstraint.FixedDepositAccount.base :=
            {| HistoryConstraint.BankAccount.balance := 100 |} |},
     Thrown (runtime_error "Withdraw not allowed in Fixed Deposit")).
Proof. vm_compute. repeat split. Qed.

(** C4, as amended: [SavingAccount] and [CurrentAccount], the classes a
    [WithdrawableAccount*] of [BankClient] can point to, are
    interchangeable: two such objects with the same balance, given the
    same sequence of [deposit] and [withdraw] calls, end with the same
    balance, and every call has the same outcome in both runs. *)
Theorem withdrawable_classes_agree
    (w1 w2 : WithdrawableObject) (ops : list operation) :
  withdrawable_balance w1 = withdrawable_balance w2 ->
  withdrawable_balance (fst (perform_all w1 ops))
    = withdrawable_balance (fst (perform_all w2 ops)) /\
  snd (perform_all w1 ops) = snd (perform_all w2 ops).
Proof.
  revert w1 w2. induction ops as [|op rest IH]; intros w1 w2 Hb.
  - split; [exact Hb | reflexivity].
  - destruct (perform_agrees w1 w2 op Hb) as [Hb' Hv].
    cbn [perform_all].
    destruct (perform w1 op) as [w1' out1], (perform w2 op) as [w2' out2].
    cbn [fst snd] in Hb', Hv.
    specialize (IH w1' w2' Hb').
    destruct (perform_all w1' rest) as [w1'' vs1],
             (perform_all w2' rest) as [w2'' vs2].
    cbn [fst snd] in *. destruct IH as [IHb IHv].
    split; [exact IHb | congruence].
Qed.

Lemma withdrawable_classes_agree_witness :
  withdrawable_balance (OfSaving {| SavingAccount.balance := 100 |})
    = withdrawable_balance (OfCurrent {| CurrentAccount.balance := 100 |}) /\
  snd (perform_all (OfSaving {| SavingAccount.balance := 100 |})
         [Deposit 1000; Withdraw 500; Withdraw 5000])
    = snd (perform_all (OfCurrent {| CurrentAccount.balance := 100 |})
             [Deposit 1000; Withdraw 500; Withdraw 5000]).
Proof.
  split; [reflexivity|].
  apply (withdrawable_classes_agree
           (OfSaving {| SavingAccount.balance := 100 |})
           (OfCurrent {| CurrentAccount.balance := 100 |})).
  reflexivity.
Defined.

(** ** The client *)

Section ClientFacts.
Context {W D : Type} {HW : WithdrawableAccount W} {HD : DepositOnlyAccount D}.

Lemma process_withdrawable_eq (accs : list W) :
  process_withdrawable accs
  = (map (fun acc => fst (withdraw (fst (deposit acc 1000)) 500)) accs,
     flat_map (fun acc => snd (deposit acc 1000)
                          ++ snd (withdraw (fst (deposit acc 1000)) 500))
       accs).
Proof.
  induction accs as [|acc rest IH]; [reflexivity|].
  cbn [process_withdrawable map flat_map]. rewrite IH.
  destruct (deposit acc 1000) as [acc1 out1]. cbn [fst snd].
  destruct (withdraw acc1 500) as [acc2 out2]. cbn [fst snd].
  rewrite <- app_assoc. reflexivity.
Qed.

Lemma process_deposit_only_eq (accs : list D) :
  process_deposit_only accs
  = (map (fun acc => fst (deposit acc 5000)) accs,
     flat_map (fun acc => snd (deposit acc 5000)) accs).
Proof.
  induction accs as [|acc rest IH]; [reflexivity|].
  cbn [process_deposit_only map flat_map]. rewrite IH.
  destruct (deposit acc 5000) as [acc1 out1]. reflexivity.
Qed.
End ClientFacts.

(** *** The calls behind the pointers *)

Lemma run_calls_app (cs1 cs2 : list LSPFollowedStore.call) :
  forall h : LSPFollowedStore.store,
    LSPFollowedStore.run_calls h (cs1 ++ cs2)
    = match LSPFollowedStore.run_calls h cs1 with
      | None => None
      | Some (h1, out1) =>
          match LSPFollowedStore.run_calls h1 cs2 with
          | None => None
          | Some (h2, out2) => Some (h2, out1 ++ out2)
          end
      end.
Proof.
  induction cs1 as [|c rest IH]; intros h;
    cbn [app LSPFollowedStore.run_calls].
  - destruct (LSPFollowedStore.run_calls h cs2) as [[h2 out2]|]; reflexivity.
  - destruct (LSPFollowedStore.run_call h c) as [[h1 out1]|]; [|reflexivity].
    rewrite IH.
    destruct (LSPFollowedStore.run_calls h1 rest) as [[h2 out2]|];
      [|reflexivity].
    destruct (LSPFollowedStore.run_calls h2 cs2) as [[h3 out3]|];
      [|reflexivity].
    rewrite app_assoc. reflexivity.
Qed.

(** The first loop makes, entry by entry, the two calls of a round. *)
Lemma store_process_withdrawable_runs (accs : list LSPFollowedStore.pointer) :
  forall h : LSPFollowedStore.store,
    LSPFollowedStore.process_withdrawable h accs
    = LSPFollowedStore.run_calls h
        (flat_map (fun acc => [(acc, Deposit 1000); (acc, Withdraw 500)])
           accs).
Proof.
  induction accs as [|acc rest IH]; intros h; [reflexivity|].
  cbn [LSPFollowedStore.process_withdrawable flat_map app
       LSPFollowedStore.run_calls LSPFollowedStore.run_call fst snd].
  destruct (LSPFollowedStore.call_deposit h acc 1000) as [[h1 out1]|];
    [|reflexivity].
  destruct (LSPFollowedStore.call_withdraw h1 acc 500) as [[h2 out2]|];
    [|reflexivity].
  rewrite IH.
  destruct (LSPFollowedStore.run_calls h2 _) as [[h3 out3]|]; reflexivity.
Qed.

(** The second loop makes one call per entry. *)
Lemma store_process_deposit_only_runs (accs : list LSPFollowedStore.pointer) :
  forall h : LSPFollowedStore.store,
    LSPFollowedStore.process_deposit_only h accs
    = LSPFollowedStore.run_calls h
        (map (fun acc => (acc, Deposit 5000)) accs).
Proof.
  induction accs as [|acc rest IH]; intros h; [reflexivity|].
  cbn [LSPFollowedStore.process_deposit_only map
       LSPFollowedStore.run_calls LSPFollowedStore.run_call fst snd].
  destruct (LSPFollowedStore.call_deposit h acc 5000) as [[h1 out1]|];
    [|reflexivity].
  rewrite IH. reflexivity.
Qed.

Lemma calls_to_app (p : LSPFollowedStore.pointer)
    (cs1 cs2 : list LSPFollowedStore.call) :
  LSPFollowedStore.calls_to p (cs1 ++ cs2)
  = LSPFollowedStore.calls_to p cs1 ++ LSPFollowedStore.calls_to p cs2.
Proof.
  unfold LSPFollowedStore.calls_to. rewrite filter_app, map_app. reflexivity.
Qed.

Lemma calls_to_withdrawable (p : LSPFollowedStore.pointer)
    (accs : list LSPFollowedStore.pointer) :
  LSPFollowedStore.calls_to p
    (flat_map (fun acc => [(acc, Deposit 1000); (acc, Withdraw 500)]) accs)
  = List.concat (repeat [Deposit 1000; Withdraw 500]
              (count_occ Nat.eq_dec accs p)).
Proof.
  induction accs as [|acc rest IH]; [reflexivity|].
  cbn [flat_map]. rewrite calls_to_app, IH. cbn [count_occ].
  unfold LSPFollowedStore.calls_to at 1. cbn [filter fst snd].
  destruct (Nat.eq_dec acc p) as [E|E].
  - rewrite (proj2 (Nat.eqb_eq acc p) E). reflexivity.
  - rewrite (proj2 (Nat.eqb_neq acc p) E). reflexivity.
Qed.

Lemma calls_to_deposit_only (p : LSPFollowedStore.pointer)
    (accs : list LSPFollowedStore.pointer) :
  LSPFollowedStore.calls_to p (map (fun acc => (acc, Deposit 5000)) accs)
  = repeat (Deposit 5000) (count_occ Nat.eq_dec accs p).
Proof.
  induction accs as [|acc rest IH]; [reflexivity|].
  change (map (fun acc => (acc, Deposit 5000)) (acc :: rest))
    with ([(acc, Deposit 5000)]
          ++ map (fun acc => (acc, Deposit 5000)) rest).
  rewrite calls_to_app, IH. cbn [count_occ].
  unfold LSPFollowedStore.calls_to at 1. cbn [filter fst snd].
  destruct (Nat.eq_dec acc p) as [E|E].
  - rewrite (proj2 (Nat.eqb_eq acc p) E). reflexivity.
  - rewrite (proj2 (Nat.eqb_neq acc p) E). reflexivity.
Qed.

(** In vectors without a repeated address, an address of the first
    vector occurs once there and not in the second, and conversely. *)
Lemma count_occ_listed_once (ws ds : list nat) (p : nat) :
  NoDup (ws ++ ds) ->
  (In p ws ->
   count_occ Nat.eq_dec ws p = 1%nat /\ count_occ Nat.eq_dec ds p = 0%nat) /\
  (In p ds ->
   count_occ Nat.eq_dec ws p = 0%nat /\ count_occ Nat.eq_dec ds p = 1%nat).
Proof.
  intros Hnd.
  pose proof (proj1 (NoDup_count_occ Nat.eq_dec (ws ++ ds)) Hnd p) as Hle.
  rewrite count_occ_app in Hle.
  split; intros Hin.
  - pose proof (proj1 (count_occ_In Nat.eq_dec ws p) Hin). lia.
  - pose proof (proj1 (count_occ_In Nat.eq_dec ds p) Hin). lia.
Qed.

Lemma count_occ_not_listed (ws ds : list nat) (p : nat) :
  ~ In p (ws ++ ds) ->
  count_occ Nat.eq_dec ws p = 0%nat /\ count_occ Nat.eq_dec ds p = 0%nat.
Proof.
  intros Hout.
  pose proof (proj1 (count_occ_not_In Nat.eq_dec (ws ++ ds) p) Hout) as E.
  rewrite count_occ_app in E. apply Nat.eq_add_0 in E. exact E.
Qed.

(** C7, counterexample: one savings account, at address 0, whose
    pointer is stored twice in the withdrawable vector and once in the
    deposit-only vector, as the constructor of [BankClient] allows.
    [processTransactions] deposits 1000 and withdraws 500 on it twice
    and then deposits 5000: the account ends at 6000 after five printed
    calls.  An account of the withdrawable vector received more than one
    deposit and one withdraw, and an account of the deposit-only vector
    received withdraws. *)
Lemma repeated_account_counterexample :
  In 0%nat [0%nat; 0%nat] /\
  In 0%nat [0%nat] /\
  LSPFollowedStore.processTransactions
    [OfWithdrawable (OfSaving SavingAccount.new)]
    {| LSPFollowedStore.withdrawableAccounts := [0%nat; 0%nat];
       LSPFollowedStore.depositOnlyAccounts := [0%nat] |}
  = Some ([OfWithdrawable (OfSaving {| SavingAccount.balance := 6000 |})],
          [Deposited 1000 "Savings" 1000;
           Withdrawn 500 "Savings" 500;
           Deposited 1000 "Savings" 1500;
           Withdrawn 500 "Savings" 1000;
           Deposited 5000 "Savings" 6000]) /\
  LSPFollowedStore.calls_to 0%nat
    (LSPFollowedStore.scheduled_calls
       {| LSPFollowedStore.withdrawableAccounts := [0%nat; 0%nat];
          LSPFollowedStore.depositOnlyAccounts := [0%nat] |})
  = [Deposit 1000; Withdraw 500; Deposit 1000; Withdraw 500; Deposit 5000] /\
  LSPFollowedStore.run_calls
    [OfWithdrawable (OfSaving SavingAccount.new)]
    [(0%nat, Deposit 1000); (0%nat, Withdraw 500)]
  = Some ([OfWithdrawable (OfSaving {| SavingAccount.balance := 500 |})],
          [Deposited 1000 "Savings" 1000; Withdrawn 500 "Savings" 500]) /\
  LSPFollowedStore.run_calls
    [OfWithdrawable (OfSaving SavingAccount.new)]
    [(0%nat, Deposit 5000)]
  = Some ([OfWithdrawable (OfSaving {| SavingAccount.balance := 5000 |})],
          [Deposited 5000 "Savings" 5000]).
Proof. vm_compute. repeat split; left; reflexivity. Qed.

(** C7, as amended: [processTransactions] makes, for each entry of its
    withdrawable vector in order, one [deposit(1000)] followed by one
    [withdraw(500)] through the stored pointer, and then, for each entry
    of its deposit-only vector in order, one [deposit(5000)]; on every
    store its result is that of making these calls one after the other,
    undefined where one of them is.  The calls are fixed by the two
    vectors alone: the objects are never inspected.  An account
    therefore receives one round per listing in the first vector and
    one [deposit(5000)] per listing in the second; when no address is
    stored more than once over both vectors, each account of the first
    receives exactly [deposit(1000); withdraw(500)], each account of
    the second exactly [deposit(5000)], and every other account
    nothing.  On objects held by value, whatever classes implement the
    two interfaces, the result is that of [deposit(1000)] then
    [withdraw(500)] on each withdrawable account and of
    [deposit(5000)] on each deposit-only account, and accounts that
    record the calls they receive record exactly these. *)
Theorem processTransactions_calls :
  (forall (h : LSPFollowedStore.store) (client : LSPFollowedStore.BankClient),
     LSPFollowedStore.processTransactions h client
     = LSPFollowedStore.run_calls h
         (LSPFollowedStore.scheduled_calls client)) /\
  (forall (client : LSPFollowedStore.BankClient)
          (p : LSPFollowedStore.pointer),
     LSPFollowedStore.calls_to p (LSPFollowedStore.scheduled_calls client)
     = List.concat (repeat [Deposit 1000; Withdraw 500]
                 (count_occ Nat.eq_dec
                    (LSPFollowedStore.withdrawableAccounts client) p))
       ++ repeat (Deposit 5000)
            (count_occ Nat.eq_dec
               (LSPFollowedStore.depositOnlyAccounts client) p)) /\
  (forall client : LSPFollowedStore.BankClient,
     NoDup (LSPFollowedStore.withdrawableAccounts client
            ++ LSPFollowedStore.depositOnlyAccounts client) ->
     forall p : LSPFollowedStore.pointer,
       (In p (LSPFollowedStore.withdrawableAccounts client) ->
        LSPFollowedStore.calls_to p
          (LSPFollowedStore.scheduled_calls client)
        = [Deposit 1000; Withdraw 500]) /\
       (In p (LSPFollowedStore.depositOnlyAccounts client) ->
        LSPFollowedStore.calls_to p
          (LSPFollowedStore.scheduled_calls client)
        = [Deposit 5000]) /\
       (~ In p (LSPFollowedStore.withdrawableAccounts client
                ++ LSPFollowedStore.depositOnlyAccounts client) ->
        LSPFollowedStore.calls_to p
          (LSPFollowedStore.scheduled_calls client)
        = [])) /\
  (forall (W D : Type) (HW : WithdrawableAccount W)
          (HD : DepositOnlyAccount D) (client : BankClient W D),
     processTransactions client
     = ({| withdrawableAccounts :=
             map (fun acc => fst (withdraw (fst (deposit acc 1000)) 500))
               (withdrawableAccounts client);
           depositOnlyAccounts :=
             map (fun acc => fst (deposit acc 5000))
               (depositOnlyAccounts client) |},
        flat_map (fun acc => snd (deposit acc 1000)
                             ++ snd (withdraw (fst (deposit acc 1000)) 500))
          (withdrawableAccounts client)
        ++ flat_map (fun acc => snd (deposit acc 5000))
             (depositOnlyAccounts client))) /\
  (forall ws ds : list Recorder,
     fst (processTransactions
            {| withdrawableAccounts := ws; depositOnlyAccounts := ds |})
     = {| withdrawableAccounts :=
            map (fun calls => calls ++ [Deposit 1000; Withdraw 500]) ws;
          depositOnlyAccounts :=
            map (fun calls => calls ++ [Deposit 5000]) ds |}).
Proof.
  assert (S1 : forall (client : LSPFollowedStore.BankClient)
                 (p : LSPFollowedStore.pointer),
     LSPFollowedStore.calls_to p (LSPFollowedStore.scheduled_calls client)
     = List.concat (repeat [Deposit 1000; Withdraw 500]
                 (count_occ Nat.eq_dec
                    (LSPFollowedStore.withdrawableAccounts client) p))
       ++ repeat (Deposit 5000)
            (count_occ Nat.eq_dec
               (LSPFollowedStore.depositOnlyAccounts client) p)).
  { intros client p. unfold LSPFollowedStore.scheduled_calls.
    rewrite calls_to_app, calls_to_withdrawable, calls_to_deposit_only.
    reflexivity. }
  assert (G : forall (W D : Type) (HW : WithdrawableAccount W)
                (HD : DepositOnlyAccount D) (client : BankClient W D),
     processTransactions client
     = ({| withdrawableAccounts :=
             map (fun acc => fst (withdraw (fst (deposit acc 1000)) 500))
               (withdrawableAccounts client);
           depositOnlyAccounts :=
             map (fun acc => fst (deposit acc 5000))
               (depositOnlyAccounts client) |},
        flat_map (fun acc => snd (deposit acc 1000)
                             ++ snd (withdraw (fst (deposit acc 1000)) 500))
          (withdrawableAccounts client)
        ++ flat_map (fun acc => snd (deposit acc 5000))
             (depositOnlyAccounts client))).
  { intros W D HW HD client. unfold processTransactions.
    rewrite process_withdrawable_eq, process_deposit_only_eq. reflexivity. }
  split; [|split; [exact S1|split; [|split; [exact G|]]]].
  - intros h client.
    unfold LSPFollowedStore.processTransactions,
      LSPFollowedStore.scheduled_calls.
    rewrite run_calls_app, store_process_withdrawable_runs.
    destruct (LSPFollowedStore.run_calls h _) as [[h1 out1]|]; [|reflexivity].
    rewrite store_process_deposit_only_runs. reflexivity.
  - intros client Hnd p.
    destruct (count_occ_listed_once _ _ p Hnd) as [Hw Hd].
    split; [|split].
    + intros Hin. destruct (Hw Hin) as [E1 E2]. rewrite S1, E1, E2.
      reflexivity.
    + intros Hin. destruct (Hd Hin) as [E1 E2]. rewrite S1, E1, E2.
      reflexivity.
    + intros Hout. destruct (count_occ_not_listed _ _ p Hout) as [E1 E2].
      rewrite S1, E1, E2. reflexivity.
  - intros ws ds. rewrite G.
    cbn [fst withdrawableAccounts depositOnlyAccounts].
    f_equal.
    apply map_ext. intros calls. cbn. rewrite <- app_assoc. reflexivity.
Qed.

(** The client of [main], whose three pointers are distinct: the second
    account gets one round, the third one deposit, and the run is that
    of the five scheduled calls. *)
Lemma processTransactions_calls_witness :
  NoDup ([0%nat; 1%nat] ++ [2%nat]) /\
  LSPFollowedStore.calls_to 1%nat
    (LSPFollowedStore.scheduled_calls
       {| LSPFollowedStore.withdrawableAccounts := [0%nat; 1%nat];
          LSPFollowedStore.depositOnlyAccounts := [2%nat] |})
  = [Deposit 1000; Withdraw 500] /\
  LSPFollowedStore.calls_to 2%nat
    (LSPFollowedStore.scheduled_calls
       {| LSPFollowedStore.withdrawableAccounts := [0%nat; 1%nat];
          LSPFollowedStore.depositOnlyAccounts := [2%nat] |})
  = [Deposit 5000].
Proof.
  assert (Hnd : NoDup ([0%nat; 1%nat] ++ [2%nat])).
  { cbn [app]. repeat constructor; cbn [In]; intros H;
      repeat (destruct H as [H|H]; [discriminate H|]); exact H. }
  split; [exact Hnd|].
  split.
  - apply (proj1 (proj1 (proj2 (proj2 processTransactions_calls))
                    {| LSPFollowedStore.withdrawableAccounts := [0%nat; 1%nat];
                       LSPFollowedStore.depositOnlyAccounts := [2%nat] |}
                    Hnd 1%nat)).
    right. left. reflexivity.
  - apply (proj1 (proj2 (proj1 (proj2 (proj2 processTransactions_calls))
                           {| LSPFollowedStore.withdrawableAccounts :=
                                [0%nat; 1%nat];
                              LSPFollowedStore.depositOnlyAccounts :=
                                [2%nat] |}
                           Hnd 2%nat))).
    left. reflexivity.
Defined.

(** ** Scenario *)

(** C8: an account holding 100 holds 1100 after [deposit(1000)], and the
    following [withdraw(500)] is accepted and leaves 600.  The account
    is a savings or a current account that reached 100 from a fresh one
    by [deposit(100)]. *)
Theorem scenario_deposit_then_withdraw :
  (fst (SavingAccount.deposit SavingAccount.new 100)
     = {| SavingAccount.balance := 100 |} /\
   SavingAccount.deposit {| SavingAccount.balance := 100 |} 1000
     = ({| SavingAccount.balance := 1100 |},
        [Deposited 1000 "Savings" 1100]) /\
   SavingAccount.withdraw {| SavingAccount.balance := 1100 |} 500
     = ({| SavingAccount.balance := 600 |},
        [Withdrawn 500 "Savings" 600])) /\
  (fst (CurrentAccount.deposit CurrentAccount.new 100)
     = {| CurrentAccount.balance := 100 |} /\
   CurrentAccount.deposit {| CurrentAccount.balance := 100 |} 1000
     = ({| CurrentAccount.balance := 1100 |},
        [Deposited 1000 "Current" 1100]) /\
   CurrentAccount.withdraw {| CurrentAccount.balance := 1100 |} 500
     = ({| CurrentAccount.balance := 600 |},
        [Withdrawn 500 "Current" 600])).
Proof. vm_compute. repeat split. Qed.

(** * Further properties of the programs *)

(** ** More binary64 arithmetic: NaN, finiteness, subtraction *)

Module Binary64Order.
Import Binary64 Binary64Facts.
Local Open Scope Z_scope.

Lemma SFcompare_refl (x : spec_float) :
  x <> S754_nan -> SFcompare x x = Some Eq.
Proof.
  destruct x as [s|s| |s m e]; intros H; try congruence;
    try (destruct s; reflexivity).
  unfold SFcompare. rewrite Z.compare_refl, Pos.compare_cont_refl.
  destruct s; reflexivity.
Qed.

Lemma SFcompare_ordered (x y : spec_float) :
  x <> S754_nan -> y <> S754_nan -> exists c, SFcompare x y = Some c.
Proof.
  destruct x as [sx|sx| |sx mx ex], y as [sy|sy| |sy my ey];
    intros Hx Hy; try congruence; eexists; reflexivity.
Qed.

Lemma SFleb_negb_SFltb (x y : spec_float) :
  x <> S754_nan -> y <> S754_nan -> SFleb x y = negb (SFltb y x).
Proof.
  intros Hx Hy. unfold SFleb, SFltb. rewrite (SFcompare_antisym x y).
  destruct (SFcompare_ordered x y Hx Hy) as [c ->].
  destruct c; reflexivity.
Qed.

Lemma SFsub_positive (x y : spec_float) :
  valid_binary x = true -> valid_binary y = true ->
  SFltb (S754_zero false) y = true ->
  SFltb x (SF64sub x y) = false.
Proof.
  intros Vx Vy Hy.
  destruct y as [sy|sy| |sy my ey]; try discriminate.
  - destruct sy; try discriminate.
    destruct x as [sx|sx| |sx mx ex]; try reflexivity; destruct sx; reflexivity.
  - destruct sy; try discriminate.
    destruct x as [sx|sx| |sx mx ex]; try reflexivity;
      try (destruct sx; reflexivity).
    apply (rounded_le _ _ _ (SFsub_finite _ _ _ _ _ _ Vx Vy));
      [exact Vx | reflexivity |].
    apply valid_finite in Vy as (_ & _ & Hey).
    pose proof (scaled_pos my ey Hey).
    change (sval (S754_finite false my ey)) with (scaled my ey). lia.
Qed.

Lemma SFsub_negative (x y : spec_float) :
  valid_binary x = true -> valid_binary y = true ->
  SFltb y (S754_zero false) = true ->
  SFltb (SF64sub x y) x = false.
Proof.
  intros Vx Vy Hy.
  destruct y as [sy|sy| |sy my ey]; try discriminate.
  - destruct sy; try discriminate.
    destruct x as [sx|sx| |sx mx ex]; try reflexivity; destruct sx; reflexivity.
  - destruct sy; try discriminate.
    destruct x as [sx|sx| |sx mx ex]; try reflexivity;
      try (destruct sx; reflexivity).
    apply (rounded_ge _ _ _ (SFsub_finite _ _ _ _ _ _ Vx Vy));
      [exact Vx | reflexivity |].
    apply valid_finite in Vy as (_ & _ & Hey).
    pose proof (scaled_pos my ey Hey).
    change (sval (S754_finite true my ey)) with (- scaled my ey). lia.
Qed.

Lemma SFsub_self (x : spec_float) :
  valid_binary x = true -> is_real x = true ->
  SF64sub x x = S754_zero false.
Proof.
  intros Vx Rx. destruct x as [s|s| |s m e]; try discriminate.
  - destruct s; reflexivity.
  - pose proof (SFsub_finite _ _ _ _ _ _ Vx Vx) as H.
    rewrite Z.sub_diag in H. exact H.
Qed.

(** A rounded value is zero, finite or infinite: it can be compared. *)
Lemma rounded_not_nan (S : Z) (r : spec_float) : rounded S r -> r <> S754_nan.
Proof.
  unfold rounded. destruct (S ?= 0); intros H.
  - subst r. discriminate.
  - destruct H as (mr & er & _ & _ & ->). destruct (er <=? 971); discriminate.
  - destruct H as (mr & er & _ & _ & ->). destruct (er <=? 971); discriminate.
Qed.

Lemma SFltb_real_sval (w y : spec_float) :
  valid_binary w = true -> valid_binary y = true ->
  is_real w = true -> is_real y = true ->
  SFltb w y = true -> sval w < sval y.
Proof.
  intros Vw Vy Rw Ry H. rewrite SFltb_sval in H by assumption.
  apply Z.ltb_lt. exact H.
Qed.

Lemma SFltb_weaken (w y : spec_float) :
  SFltb w y = true -> SFleb w y = true.
Proof.
  unfold SFltb, SFleb. destruct (SFcompare w y) as [[| |]|]; congruence.
Qed.

Lemma SFltb_left_not_nan (w y : spec_float) :
  SFltb w y = true -> w <> S754_nan.
Proof. intros H ->. discriminate. Qed.

Lemma SFleb_plus_infinity (w : spec_float) :
  w <> S754_nan -> SFleb w (S754_infinity false) = true.
Proof.
  destruct w as [s|s| |s m e]; intros H; try congruence;
    try reflexivity; destruct s; reflexivity.
Qed.

Lemma SFltb_minus_infinity (w : spec_float) :
  SFltb w (S754_infinity true) = false.
Proof. destruct w as [s|s| |s m e]; try reflexivity; destruct s; reflexivity. Qed.

Lemma SFltb_zero_positive (w : spec_float) (s : bool) m e :
  SFltb w (S754_zero s) = true -> SFleb w (S754_finite false m e) = true.
Proof.
  destruct w as [sw|sw| |sw mw ew]; try discriminate;
    destruct sw; try discriminate; reflexivity.
Qed.

(** Adding something that is not below zero keeps a sum above whatever
    the other summand exceeds. *)
Lemma SFadd_lower_bound (x y w : spec_float) :
  valid_binary x = true -> valid_binary y = true -> valid_binary w = true ->
  SFleb (S754_zero false) x = true -> SFltb w y = true ->
  SFleb w (SF64add x y) = true.
Proof.
  intros Vx Vy Vw Hx Hwy.
  pose proof (SFltb_left_not_nan _ _ Hwy) as Hw.
  destruct x as [sx|sx| |sx mx ex]; try discriminate.
  - (* x is a zero *)
    destruct y as [sy|sy| |sy my ey].
    + assert (Hz : forall s, SFleb w (S754_zero s) = true).
      { intros s. apply SFltb_weaken.
        destruct w as [sw|sw| |sw mw ew]; try discriminate; exact Hwy. }
      destruct sx, sy; apply Hz.
    + apply SFltb_weaken. exact Hwy.
    + destruct w; discriminate.
    + apply SFltb_weaken. exact Hwy.
  - (* x is plus infinity *)
    destruct sx; try discriminate.
    destruct y as [sy|sy| |sy my ey].
    + apply SFleb_plus_infinity. exact Hw.
    + destruct sy.
      * rewrite SFltb_minus_infinity in Hwy. discriminate.
      * apply SFleb_plus_infinity. exact Hw.
    + destruct w; discriminate.
    + apply SFleb_plus_infinity. exact Hw.
  - (* x is finite and positive *)
    destruct sx; try discriminate.
    destruct y as [sy|sy| |sy my ey].
    + (* y is a zero: the sum is x *)
      apply (SFltb_zero_positive _ _ _ _ Hwy).
    + destruct sy.
      * rewrite SFltb_minus_infinity in Hwy. discriminate.
      * apply SFleb_plus_infinity. exact Hw.
    + destruct w; discriminate.
    + pose proof (SFadd_finite _ _ _ _ _ _ Vx Vy) as Hr.
      set (r := SF64add (S754_finite false mx ex) (S754_finite sy my ey)) in *.
      pose proof (rounded_not_nan _ _ Hr) as Hnan.
      destruct (is_real w) eqn:Rw.
      * rewrite SFleb_negb_SFltb by assumption.
        apply negb_true_iff.
        apply (rounded_ge _ _ _ Hr); [exact Vw | exact Rw |].
        pose proof (SFltb_real_sval _ _ Vw Vy Rw eq_refl Hwy) as Hlt.
        apply valid_finite in Vx as (_ & _ & Hex).
        pose proof (scaled_pos mx ex Hex).
        change (sval (S754_finite false mx ex)) with (scaled mx ex). lia.
      * (* w is minus infinity *)
        destruct w as [sw|sw| |sw mw ew]; try discriminate.
        destruct sw; [|discriminate].
        destruct r as [sr|sr| |sr mr er]; try congruence;
          try reflexivity; destruct sr; reflexivity.
Qed.

(** Depositing on plus zero and taking the same amount back. *)
Lemma SFadd_zero_sub (a : spec_float) :
  valid_binary a = true -> is_real a = true ->
  SFleb a (SF64add (S754_zero false) a) = true /\
  SF64sub (SF64add (S754_zero false) a) a = S754_zero false.
Proof.
  intros Va Ra. destruct a as [s|s| |s m e]; try discriminate.
  - destruct s; split; reflexivity.
  - change (SF64add (S754_zero false) (S754_finite s m e))
      with (S754_finite s m e).
    split.
    + unfold SFleb. rewrite SFcompare_refl by discriminate. reflexivity.
    + apply SFsub_self; [exact Va | reflexivity].
Qed.

Lemma SFltb_zero_trans (a b : spec_float) :
  SFltb a (S754_zero false) = true ->
  (SFleb (S754_zero false) b = true -> SFleb a b = true) /\
  (SFltb b (S754_zero false) = false -> SFltb b a = false).
Proof.
  intros Ha.
  destruct a as [sa|sa| |sa ma ea]; try discriminate;
    destruct sa; try discriminate;
    (split; intros Hb;
     destruct b as [sb|sb| |sb mb eb]; try discriminate; try reflexivity;
     destruct sb; try discriminate; reflexivity).
Qed.

(** *** On primitive floats *)

Local Open Scope float_scope.

Lemma Prim2SF_nan : Prim2SF nan = S754_nan.
Proof. vm_compute. reflexivity. Qed.

Lemma Prim2SF_infinity : Prim2SF infinity = S754_infinity false.
Proof. vm_compute. reflexivity. Qed.

Lemma is_nan_spec (x : float) :
  is_nan x = true <-> Prim2SF x = S754_nan.
Proof.
  unfold is_nan. rewrite eqb_spec, negb_true_iff. unfold SFeqb. split.
  - intros H. destruct (Prim2SF x) as [s|s| |s m e] eqn:E; try reflexivity;
      rewrite SFcompare_refl in H by discriminate; discriminate.
  - intros ->. reflexivity.
Qed.

Lemma is_nan_false (x : float) :
  is_nan x = false -> Prim2SF x <> S754_nan.
Proof.
  intros H E. apply is_nan_spec in E. congruence.
Qed.

Lemma is_nan_eq (x : float) : is_nan x = true -> x = nan.
Proof.
  intros H. apply Prim2SF_inj. rewrite Prim2SF_nan. apply is_nan_spec. exact H.
Qed.

Lemma is_finite_real (x : float) :
  is_finite x = true -> is_real (Prim2SF x) = true.
Proof.
  unfold is_finite, is_infinity. rewrite negb_true_iff, orb_false_iff.
  intros [Hn Hi]. apply is_nan_false in Hn.
  rewrite eqb_spec, abs_spec, Prim2SF_infinity in Hi.
  destruct (Prim2SF x) as [s|s| |s m e]; try reflexivity; [|congruence].
  discriminate.
Qed.

(** Comparable doubles: [a <= b] is the negation of [b < a]. *)
Theorem leb_negb_ltb (a b : float) :
  is_nan a = false -> is_nan b = false -> (a <=? b) = negb (b <? a).
Proof.
  intros Ha Hb. rewrite leb_spec, ltb_spec.
  apply SFleb_negb_SFltb; apply is_nan_false; assumption.
Qed.

Theorem nan_add (a : float) : nan + a = nan.
Proof.
  apply Prim2SF_inj. rewrite add_spec, Prim2SF_nan. reflexivity.
Qed.

Theorem nan_sub (a : float) : nan - a = nan.
Proof.
  apply Prim2SF_inj. rewrite sub_spec, Prim2SF_nan. reflexivity.
Qed.

Theorem sub_nan (b : float) : b - nan = nan.
Proof.
  apply Prim2SF_inj. rewrite sub_spec, Prim2SF_nan.
  destruct (Prim2SF b); reflexivity.
Qed.

Theorem leb_nan_r (a : float) : (a <=? nan) = false.
Proof.
  rewrite leb_spec, Prim2SF_nan. destruct (Prim2SF a); reflexivity.
Qed.

Theorem leb_nan_l (a : float) : (nan <=? a) = false.
Proof. rewrite leb_spec, Prim2SF_nan. reflexivity. Qed.

Theorem sub_positive (x y : float) : (0 <? y) = true -> (x <? x - y) = false.
Proof.
  rewrite !ltb_spec, sub_spec, Prim2SF_zero.
  apply SFsub_positive; apply Prim2SF_valid.
Qed.

Theorem sub_negative (x y : float) : (y <? 0) = true -> (x - y <? x) = false.
Proof.
  rewrite !ltb_spec, sub_spec, Prim2SF_zero.
  apply SFsub_negative; apply Prim2SF_valid.
Qed.

Theorem sub_self (x : float) : is_finite x = true -> x - x = 0.
Proof.
  intros H. apply Prim2SF_inj. rewrite sub_spec, Prim2SF_zero.
  apply SFsub_self; [apply Prim2SF_valid | apply is_finite_real; exact H].
Qed.

Theorem leb_refl (x : float) : is_nan x = false -> (x <=? x) = true.
Proof.
  intros H. rewrite leb_spec. unfold SFleb.
  rewrite SFcompare_refl by (apply is_nan_false; exact H). reflexivity.
Qed.

Theorem ltb_irrefl (x : float) : (x <? x) = false.
Proof.
  rewrite ltb_spec. unfold SFltb.
  destruct (Prim2SF x) as [s|s| |s m e] eqn:E; try reflexivity;
    rewrite SFcompare_refl by discriminate; reflexivity.
Qed.

Theorem is_finite_not_nan (x : float) : is_finite x = true -> is_nan x = false.
Proof.
  unfold is_finite. rewrite negb_true_iff, orb_false_iff. tauto.
Qed.

Theorem add_lower_bound (x y w : float) :
  (0 <=? x) = true -> (w <? y) = true -> (w <=? x + y) = true.
Proof.
  rewrite !leb_spec, ltb_spec, add_spec, Prim2SF_zero.
  apply SFadd_lower_bound; apply Prim2SF_valid.
Qed.

Theorem zero_add_sub (a : float) :
  is_finite a = true -> (a <=? 0 + a) = true /\ 0 + a - a = 0.
Proof.
  intros H.
  destruct (SFadd_zero_sub (Prim2SF a) (Prim2SF_valid a) (is_finite_real a H))
    as [Hle Hsub].
  split.
  - rewrite leb_spec, add_spec, Prim2SF_zero. exact Hle.
  - apply Prim2SF_inj. rewrite sub_spec, add_spec, Prim2SF_zero. exact Hsub.
Qed.

Theorem negative_leb_not_negative (a b : float) :
  (a <? 0) = true -> (0 <=? b) = true -> (a <=? b) = true.
Proof.
  rewrite ltb_spec, !leb_spec, Prim2SF_zero. intros Ha.
  apply (SFltb_zero_trans _ _ Ha).
Qed.

Theorem not_negative_not_below_negative (a b : float) :
  (a <? 0) = true -> (b <? 0) = false -> (b <? a) = false.
Proof.
  rewrite !ltb_spec, Prim2SF_zero. intros Ha.
  apply (SFltb_zero_trans _ _ Ha).
Qed.

End Binary64Order.

(** ** Accounts over their lifetime *)

Lemma withdrawable_deposit_balance (w : WithdrawableObject) (amount : float) :
  withdrawable_balance (fst (deposit w amount))
    = withdrawable_balance w + amount /\
  snd (deposit w amount)
    = [Deposited amount (account_name (OfWithdrawable w))
         (withdrawable_balance w + amount)].
Proof. destruct w as [s|c]; split; reflexivity. Qed.

Lemma withdrawable_withdraw_not_negative
    (w : WithdrawableObject) (amount : float) :
  not_negative (withdrawable_balance w) ->
  not_negative (withdrawable_balance (fst (withdraw w amount))).
Proof.
  intros Hb. destruct (withdrawable_balance w >=? amount) eqn:E.
  - rewrite (proj1 (withdrawable_withdraw_funded w amount E)).
    apply geb_sub_not_negative. exact E.
  - rewrite (withdrawable_withdraw_refused w amount E). exact Hb.
Qed.

Lemma withdrawable_deposit_not_negative
    (w : WithdrawableObject) (amount : float) :
  not_negative amount -> not_negative (withdrawable_balance w) ->
  not_negative (withdrawable_balance (fst (deposit w amount))).
Proof.
  intros Ha Hb. rewrite (proj1 (withdrawable_deposit_balance w amount)).
  apply Binary64Facts.add_not_negative; assumption.
Qed.

(** X1: a savings or current account whose balance is not negative keeps
    it so through any sequence of [deposit] and [withdraw] calls, as long
    as no deposited amount is negative; the withdrawn amounts are
    arbitrary. *)
Theorem withdrawable_lifetime_not_negative
    (w : WithdrawableObject) (ops : list operation) :
  not_negative (withdrawable_balance w) ->
  Forall not_negative (Callers.deposited_amounts ops) ->
  not_negative (withdrawable_balance (fst (perform_all w ops))).
Proof.
  revert w. induction ops as [|op rest IH]; intros w Hb Hops.
  - exact Hb.
  - cbn [perform_all].
    destruct (perform w op) as [w' out] eqn:E.
    specialize (IH w').
    destruct (perform_all w' rest) as [w'' vs]. cbn [fst] in *.
    assert (Hw' : w' = fst (perform w op)) by (rewrite E; reflexivity).
    destruct op as [amount|amount]; cbn [Callers.deposited_amounts] in Hops.
    + inversion Hops as [|? ? Ha Hrest]; subst.
      apply IH; [|exact Hrest].
      apply withdrawable_deposit_not_negative; assumption.
    + apply IH; [|exact Hops]. rewrite Hw'.
      apply withdrawable_withdraw_not_negative. exact Hb.
Qed.

Lemma withdrawable_lifetime_not_negative_witness :
  not_negative (withdrawable_balance (OfSaving SavingAccount.new)) /\
  Forall not_negative
    (Callers.deposited_amounts
       [Deposit 1000; Withdraw 500; Withdraw 5000; Withdraw (-3)]) /\
  not_negative
    (withdrawable_balance
       (fst (perform_all (OfSaving SavingAccount.new)
               [Deposit 1000; Withdraw 500; Withdraw 5000; Withdraw (-3)]))).
Proof.
  assert (H1 : not_negative (withdrawable_balance (OfSaving SavingAccount.new)))
    by reflexivity.
  assert (H2 : Forall not_negative
                 (Callers.deposited_amounts
                    [Deposit 1000; Withdraw 500; Withdraw 5000; Withdraw (-3)]))
    by (repeat constructor).
  split; [exact H1|]. split; [exact H2|].
  exact (withdrawable_lifetime_not_negative _ _ H1 H2).
Defined.

Lemma history_withdraw_not_negative
    (o : HistoryConstraint.BankAccountObject) (amount : float) :
  not_negative (HistoryConstraint.balance o) ->
  not_negative
    (HistoryConstraint.balance (fst (HistoryConstraint.withdraw o amount))).
Proof.
  destruct o as [a|f]; intros Hb; cbn in *.
  - unfold HistoryConstraint.BankAccount.withdraw.
    destruct (HistoryConstraint.BankAccount.balance a - amount <? 0) eqn:E;
      cbn; [exact Hb | exact E].
  - exact Hb.
Qed.

Lemma history_withdraw_each_not_negative
    (o : HistoryConstraint.BankAccountObject) (amounts : list float) :
  not_negative (HistoryConstraint.balance o) ->
  not_negative
    (HistoryConstraint.balance (fst (Callers.history_withdraw_each o amounts))).
Proof.
  revert o. induction amounts as [|amount rest IH]; intros o Hb.
  - exact Hb.
  - cbn [Callers.history_withdraw_each].
    pose proof (history_withdraw_not_negative o amount Hb) as H1.
    destruct (HistoryConstraint.withdraw o amount) as [o' c].
    specialize (IH o' H1).
    destruct (Callers.history_withdraw_each o' rest) as [o'' cs].
    exact IH.
Qed.

(** X2: from its construction on, whatever amounts are withdrawn through
    a [BankAccount*] of the second program, the balance of a
    [BankAccount] or of a [FixedDepositAccount] is never negative. *)
Theorem bank_account_lifetime_not_negative (b : float) (amounts : list float) :
  (forall a, HistoryConstraint.BankAccount.new b = inr a ->
     not_negative
       (HistoryConstraint.balance
          (fst (Callers.history_withdraw_each
                  (HistoryConstraint.OfBankAccount a) amounts)))) /\
  (forall f, HistoryConstraint.FixedDepositAccount.new b = inr f ->
     not_negative
       (HistoryConstraint.balance
          (fst (Callers.history_withdraw_each
                  (HistoryConstraint.OfFixedDepositAccount f) amounts)))).
Proof.
  split.
  - intros a Ha. apply history_withdraw_each_not_negative.
    exact (proj1 (bank_account_new_not_negative b) a Ha).
  - intros f. unfold HistoryConstraint.FixedDepositAccount.new.
    destruct (HistoryConstraint.BankAccount.new b) as [e|a] eqn:E;
      [discriminate|].
    intros [= <-]. apply history_withdraw_each_not_negative.
    exact (proj1 (bank_account_new_not_negative b) a E).
Qed.

Lemma bank_account_lifetime_not_negative_witness :
  HistoryConstraint.BankAccount.new 100
    = inr {| HistoryConstraint.BankAccount.balance := 100 |} /\
  not_negative
    (HistoryConstraint.balance
       (fst (Callers.history_withdraw_each
               (HistoryConstraint.OfBankAccount
                  {| HistoryConstraint.BankAccount.balance := 100 |})
               [60; 60; -5; 45]))).
Proof.
  split; [reflexivity|].
  apply (proj1 (bank_account_lifetime_not_negative 100 [60; 60; -5; 45])).
  reflexivity.
Defined.

(** X3: [CheatAccount::withdraw] never throws, and it leaves a negative
    balance exactly when the amount exceeds the balance. *)
Theorem cheat_withdraw_overdraws (c : ClassInvariants.CheatAccount.t)
    (amount : float) :
  snd (ClassInvariants.CheatAccount.withdraw c amount)
    = Returned [AmountWithdrawn (ClassInvariants.CheatAccount.balance c - amount)]
  /\
  (ClassInvariants.CheatAccount.balance
     (fst (ClassInvariants.CheatAccount.withdraw c amount)) <? 0)
    = (ClassInvariants.CheatAccount.balance c <? amount).
Proof.
  split; [reflexivity|]. cbn. apply bank_guard.
Qed.

(** X4: through a [BankAccount*] of the third program, a [CheatAccount]
    and a [BankAccount] with the same balance differ on overdrafts and
    on nothing else.  Whenever [balance < amount] is false, which
    includes every withdrawal the balance covers and every call where
    the balance or the amount is not a number, the two give the same
    output and the same new balance.  Whenever [balance < amount] is
    true, the [BankAccount] throws and keeps its balance while the
    [CheatAccount] returns and holds [balance - amount]. *)
Theorem cheat_agrees_when_funded (a : ClassInvariants.BankAccount.t)
    (amount : float) :
  ((ClassInvariants.BankAccount.balance a <? amount) = false ->
   snd (ClassInvariants.withdraw (ClassInvariants.OfBankAccount a) amount)
     = snd (ClassInvariants.withdraw
              (ClassInvariants.OfCheatAccount
                 {| ClassInvariants.CheatAccount.base := a |}) amount) /\
   ClassInvariants.balance
     (fst (ClassInvariants.withdraw (ClassInvariants.OfBankAccount a) amount))
     = ClassInvariants.balance
         (fst (ClassInvariants.withdraw
                 (ClassInvariants.OfCheatAccount
                    {| ClassInvariants.CheatAccount.base := a |}) amount))) /\
  ((ClassInvariants.BankAccount.balance a <? amount) = true ->
   ClassInvariants.withdraw (ClassInvariants.OfBankAccount a) amount
     = (ClassInvariants.OfBankAccount a,
        Thrown (runtime_error "Insufficient funds")) /\
   ClassInvariants.withdraw
     (ClassInvariants.OfCheatAccount
        {| ClassInvariants.CheatAccount.base := a |}) amount
     = (ClassInvariants.OfCheatAccount
          {| ClassInvariants.CheatAccount.base :=
               {| ClassInvariants.BankAccount.balance :=
                    ClassInvariants.BankAccount.balance a - amount |} |},
        Returned
          [AmountWithdrawn
             (ClassInvariants.BankAccount.balance a - amount)])).
Proof.
  split; intros H; cbn; unfold ClassInvariants.BankAccount.withdraw;
    rewrite bank_guard, H; split; reflexivity.
Qed.

Lemma cheat_agrees_when_funded_witness :
  ((100 <? 100) = false /\
   snd (ClassInvariants.withdraw
          (ClassInvariants.OfBankAccount
             {| ClassInvariants.BankAccount.balance := 100 |}) 100)
     = snd (ClassInvariants.withdraw
              (ClassInvariants.OfCheatAccount
                 {| ClassInvariants.CheatAccount.base :=
                      {| ClassInvariants.BankAccount.balance := 100 |} |})
              100)) /\
  ((100 <? nan) = false /\
   snd (ClassInvariants.withdraw
          (ClassInvariants.OfBankAccount
             {| ClassInvariants.BankAccount.balance := 100 |}) nan)
     = snd (ClassInvariants.withdraw
              (ClassInvariants.OfCheatAccount
                 {| ClassInvariants.CheatAccount.base :=
                      {| ClassInvariants.BankAccount.balance := 100 |} |})
              nan)) /\
  ((100 <? 200) = true /\
   ClassInvariants.withdraw
     (ClassInvariants.OfBankAccount
        {| ClassInvariants.BankAccount.balance := 100 |}) 200
     = (ClassInvariants.OfBankAccount
          {| ClassInvariants.BankAccount.balance := 100 |},
        Thrown (runtime_error "Insufficient funds"))).
Proof.
  split; [|split].
  - split; [reflexivity|].
    apply (proj1 (cheat_agrees_when_funded
                    {| ClassInvariants.BankAccount.balance := 100 |} 100)).
    reflexivity.
  - split; [reflexivity|].
    apply (proj1 (cheat_agrees_when_funded
                    {| ClassInvariants.BankAccount.balance := 100 |} nan)).
    reflexivity.
  - split; [reflexivity|].
    apply (proj2 (cheat_agrees_when_funded
                    {| ClassInvariants.BankAccount.balance := 100 |} 200)).
    reflexivity.
Defined.

(** X5: a [FixedDepositAccount] never changes: every [withdraw], whatever
    the amount and however often it is tried, throws the same
    [runtime_error] and leaves the object as it was. *)
Theorem fixed_deposit_never_changes
    (f : HistoryConstraint.FixedDepositAccount.t) (amounts : list float) :
  Callers.history_withdraw_each
    (HistoryConstraint.OfFixedDepositAccount f) amounts
  = (HistoryConstraint.OfFixedDepositAccount f,
     map (fun _ =>
            Thrown (runtime_error "Withdraw not allowed in Fixed Deposit"))
       amounts).
Proof.
  induction amounts as [|amount rest IH]; [reflexivity|].
  cbn [Callers.history_withdraw_each HistoryConstraint.withdraw
       HistoryConstraint.FixedDepositAccount.withdraw map].
  rewrite IH. reflexivity.
Qed.

(** ** The two guards compared *)

(** X6: [balance >= amount] (savings and current accounts) and
    [balance - amount < 0] (bank account) decide alike whenever neither
    the balance nor the amount is NaN: on equal balances the withdrawal
    has the same verdict and leaves the same balance in both
    hierarchies. *)
Theorem guards_agree_without_nan (w : WithdrawableObject)
    (a : HistoryConstraint.BankAccount.t) (amount : float) :
  withdrawable_balance w = HistoryConstraint.BankAccount.balance a ->
  is_nan (withdrawable_balance w) = false -> is_nan amount = false ->
  withdrawable_balance (fst (withdraw w amount))
    = HistoryConstraint.BankAccount.balance
        (fst (HistoryConstraint.BankAccount.withdraw a amount)) /\
  map verdict_of_line (snd (withdraw w amount))
    = [verdict_of_completion
         (snd (HistoryConstraint.BankAccount.withdraw a amount))].
Proof.
  intros Hb Hnb Hna.
  unfold HistoryConstraint.BankAccount.withdraw. rewrite bank_guard, <- Hb.
  pose proof (Binary64Order.leb_negb_ltb amount (withdrawable_balance w)
                Hna Hnb) as Hord.
  destruct (withdrawable_balance w <? amount) eqn:Elt.
  - assert (E : (withdrawable_balance w >=? amount) = false) by exact Hord.
    rewrite (withdrawable_withdraw_refused w amount E).
    split; [exact Hb | reflexivity].
  - assert (E : (withdrawable_balance w >=? amount) = true) by exact Hord.
    destruct (withdrawable_withdraw_funded w amount E) as [-> ->].
    split; reflexivity.
Qed.

Lemma guards_agree_without_nan_witness :
  is_nan 100 = false /\ is_nan 250 = false /\
  map verdict_of_line
    (snd (withdraw (OfCurrent {| CurrentAccount.balance := 100 |}) 250))
    = [verdict_of_completion
         (snd (HistoryConstraint.BankAccount.withdraw
                 {| HistoryConstraint.BankAccount.balance := 100 |} 250))].
Proof.
  split; [reflexivity|]. split; [reflexivity|].
  apply (guards_agree_without_nan
           (OfCurrent {| CurrentAccount.balance := 100 |})
           {| HistoryConstraint.BankAccount.balance := 100 |} 250);
    reflexivity.
Defined.

(** X7: a NaN amount separates the two guards.  A savings or current
    account refuses [withdraw(NaN)] whatever its balance and stays as it
    was; a [BankAccount] accepts it whatever its balance, and its
    balance becomes NaN. *)
Theorem withdraw_nan_amount :
  (forall w : WithdrawableObject,
     withdraw w nan
     = (w, [InsufficientFunds (account_name (OfWithdrawable w))])) /\
  (forall a : HistoryConstraint.BankAccount.t,
     HistoryConstraint.BankAccount.withdraw a nan
     = ({| HistoryConstraint.BankAccount.balance := nan |},
        Returned [AmountWithdrawn nan])) /\
  (forall a : ClassInvariants.BankAccount.t,
     ClassInvariants.BankAccount.withdraw a nan
     = ({| ClassInvariants.BankAccount.balance := nan |},
        Returned [AmountWithdrawn nan])).
Proof.
  split; [|split].
  - intros w. apply withdrawable_withdraw_refused.
    unfold geb. apply Binary64Order.leb_nan_l.
  - intros a. unfold HistoryConstraint.BankAccount.withdraw.
    rewrite Binary64Order.sub_nan. reflexivity.
  - intros a. unfold ClassInvariants.BankAccount.withdraw.
    rewrite Binary64Order.sub_nan. reflexivity.
Qed.

(** X8: once the balance of a savings or current account is NaN (after
    [deposit(NaN)], say) it stays NaN: every later deposit is absorbed
    and every later withdrawal is refused. *)
Theorem nan_balance_is_stuck (w : WithdrawableObject) (ops : list operation) :
  is_nan (withdrawable_balance w) = true ->
  is_nan (withdrawable_balance (fst (perform_all w ops))) = true /\
  snd (perform_all w ops)
    = map (fun op => match op with
                     | Deposit _ => [Success]
                     | Withdraw _ => [InsufficientFundsFailure]
                     end) ops.
Proof.
  revert w. induction ops as [|op rest IH]; intros w Hn.
  - split; [exact Hn | reflexivity].
  - cbn [perform_all map].
    pose proof (Binary64Order.is_nan_eq _ Hn) as Eb.
    assert (Hstep : is_nan (withdrawable_balance (fst (perform w op))) = true /\
                    map verdict_of_line (snd (perform w op))
                    = match op with
                      | Deposit _ => [Success]
                      | Withdraw _ => [InsufficientFundsFailure]
                      end).
    { destruct op as [amount|amount].
      - destruct (withdrawable_deposit_balance w amount) as [Hb Hout].
        cbn [perform]. rewrite Hb, Hout, Eb, Binary64Order.nan_add.
        split; reflexivity.
      - cbn [perform].
        rewrite (withdrawable_withdraw_refused w amount)
          by (unfold geb; rewrite Eb; apply Binary64Order.leb_nan_r).
        split; [exact Hn | reflexivity]. }
    destruct (perform w op) as [w' out]. cbn [fst snd] in Hstep.
    destruct Hstep as [Hn' Hv].
    specialize (IH w' Hn').
    destruct (perform_all w' rest) as [w'' vs]. cbn [fst snd] in *.
    destruct IH as [IHn IHv]. split; [exact IHn | congruence].
Qed.

Lemma nan_balance_is_stuck_witness :
  is_nan (withdrawable_balance
            (fst (deposit (OfSaving SavingAccount.new) nan))) = true /\
  snd (perform_all (fst (deposit (OfSaving SavingAccount.new) nan))
         [Deposit 1000; Withdraw 500])
    = [[Success]; [InsufficientFundsFailure]].
Proof.
  assert (H : is_nan (withdrawable_balance
                        (fst (deposit (OfSaving SavingAccount.new) nan)))
               = true) by reflexivity.
  split; [exact H|].
  exact (proj2 (nan_balance_is_stuck
                  (fst (deposit (OfSaving SavingAccount.new) nan))
                  [Deposit 1000; Withdraw 500] H)).
Defined.

(** X20: a [BankAccount] behaves the other way round.  Its constructor
    lets a NaN balance through, and with a NaN balance every
    withdrawal, whatever the amount, returns normally and leaves the
    balance NaN. *)
Theorem bank_account_nan_accepts_all
    (a : HistoryConstraint.BankAccount.t) (amounts : list float) :
  is_nan (HistoryConstraint.BankAccount.balance a) = true ->
  HistoryConstraint.BankAccount.new (HistoryConstraint.BankAccount.balance a)
    = inr a /\
  Callers.history_withdraw_each (HistoryConstraint.OfBankAccount a) amounts
    = (HistoryConstraint.OfBankAccount a,
       map (fun _ => Returned [AmountWithdrawn nan]) amounts).
Proof.
  intros Hn. pose proof (Binary64Order.is_nan_eq _ Hn) as Eb.
  destruct a as [b]. cbn in Eb. subst b. split; [reflexivity|].
  induction amounts as [|amount rest IH]; [reflexivity|].
  cbn [Callers.history_withdraw_each HistoryConstraint.withdraw map].
  unfold HistoryConstraint.BankAccount.withdraw.
  cbn [HistoryConstraint.BankAccount.balance].
  rewrite Binary64Order.nan_sub.
  change (nan <? 0) with false. cbv iota.
  rewrite IH. reflexivity.
Qed.

Lemma bank_account_nan_accepts_all_witness :
  is_nan nan = true /\
  Callers.history_withdraw_each
    (HistoryConstraint.OfBankAccount
       {| HistoryConstraint.BankAccount.balance := nan |}) [50; -3]
  = (HistoryConstraint.OfBankAccount
       {| HistoryConstraint.BankAccount.balance := nan |},
     [Returned [AmountWithdrawn nan]; Returned [AmountWithdrawn nan]]).
Proof.
  split; [reflexivity|].
  apply (proj2 (bank_account_nan_accepts_all
                  {| HistoryConstraint.BankAccount.balance := nan |}
                  [50; -3] eq_refl)).
Defined.

(** ** Amounts of either sign *)

(** X9: [withdraw] does not check the sign of the amount.  On a balance
    that is [>= 0], withdrawing a negative amount is always accepted by
    a savings, current or bank account, and the balance does not go
    down. *)
Theorem negative_withdraw_is_accepted (amount : float) :
  (amount <? 0) = true ->
  (forall w : WithdrawableObject,
     (0 <=? withdrawable_balance w) = true ->
     snd (withdraw w amount)
       = [Withdrawn amount (account_name (OfWithdrawable w))
            (withdrawable_balance w - amount)] /\
     (withdrawable_balance (fst (withdraw w amount)) <? withdrawable_balance w)
       = false) /\
  (forall a : HistoryConstraint.BankAccount.t,
     (0 <=? HistoryConstraint.BankAccount.balance a) = true ->
     snd (HistoryConstraint.BankAccount.withdraw a amount)
       = Returned [AmountWithdrawn
                     (HistoryConstraint.BankAccount.balance a - amount)] /\
     (HistoryConstraint.BankAccount.balance
        (fst (HistoryConstraint.BankAccount.withdraw a amount))
      <? HistoryConstraint.BankAccount.balance a) = false).
Proof.
  intros Hneg. split.
  - intros w Hb.
    assert (E : (withdrawable_balance w >=? amount) = true)
      by (apply Binary64Order.negative_leb_not_negative; assumption).
    destruct (withdrawable_withdraw_funded w amount E) as [-> ->].
    split; [reflexivity|]. apply Binary64Order.sub_negative. exact Hneg.
  - intros a Hb. unfold HistoryConstraint.BankAccount.withdraw.
    rewrite bank_guard.
    rewrite (Binary64Order.not_negative_not_below_negative _ _ Hneg
               (Binary64Facts.leb_ltb _ _ Hb)).
    split; [reflexivity|]. apply Binary64Order.sub_negative. exact Hneg.
Qed.

Lemma negative_withdraw_is_accepted_witness :
  (-50 <? 0) = true /\
  (0 <=? withdrawable_balance (OfSaving SavingAccount.new)) = true /\
  snd (withdraw (OfSaving SavingAccount.new) (-50))
    = [Withdrawn (-50) "Savings" (0 - -50)].
Proof.
  split; [reflexivity|]. split; [reflexivity|].
  apply (proj1 (negative_withdraw_is_accepted (-50) eq_refl)
           (OfSaving SavingAccount.new)).
  reflexivity.
Defined.

(** X10: withdrawing a positive amount never raises a balance, in any
    class that has [withdraw], whether the call is accepted or not. *)
Theorem positive_withdraw_never_raises (amount : float) :
  (0 <? amount) = true ->
  (forall w : WithdrawableObject,
     (withdrawable_balance w <? withdrawable_balance (fst (withdraw w amount)))
       = false) /\
  (forall o : HistoryConstraint.BankAccountObject,
     (HistoryConstraint.balance o
      <? HistoryConstraint.balance (fst (HistoryConstraint.withdraw o amount)))
       = false) /\
  (forall o : ClassInvariants.BankAccountObject,
     (ClassInvariants.balance o
      <? ClassInvariants.balance (fst (ClassInvariants.withdraw o amount)))
       = false).
Proof.
  intros Hpos. split; [|split].
  - intros w. destruct (withdrawable_balance w >=? amount) eqn:E.
    + rewrite (proj1 (withdrawable_withdraw_funded w amount E)).
      apply Binary64Order.sub_positive. exact Hpos.
    + rewrite (withdrawable_withdraw_refused w amount E).
      apply Binary64Order.ltb_irrefl.
  - intros [a|f]; cbn.
    + unfold HistoryConstraint.BankAccount.withdraw.
      destruct (HistoryConstraint.BankAccount.balance a - amount <? 0); cbn.
      * apply Binary64Order.ltb_irrefl.
      * apply Binary64Order.sub_positive. exact Hpos.
    + apply Binary64Order.ltb_irrefl.
  - intros [a|c]; cbn.
    + unfold ClassInvariants.BankAccount.withdraw.
      destruct (ClassInvariants.BankAccount.balance a - amount <? 0); cbn.
      * apply Binary64Order.ltb_irrefl.
      * apply Binary64Order.sub_positive. exact Hpos.
    + apply Binary64Order.sub_positive. exact Hpos.
Qed.

Lemma positive_withdraw_never_raises_witness :
  (0 <? 1) = true /\
  (withdrawable_balance (OfSaving {| SavingAccount.balance := 1e17 |})
   <? withdrawable_balance
        (fst (withdraw (OfSaving {| SavingAccount.balance := 1e17 |}) 1)))
    = false.
Proof.
  split; [reflexivity|].
  apply (proj1 (positive_withdraw_never_raises 1 eq_refl)).
Defined.

(** X11: withdrawing the whole of a finite balance is accepted and
    leaves exactly 0, in a savings, current or bank account. *)
Theorem withdraw_whole_balance :
  (forall w : WithdrawableObject,
     is_finite (withdrawable_balance w) = true ->
     withdrawable_balance (fst (withdraw w (withdrawable_balance w))) = 0 /\
     map verdict_of_line (snd (withdraw w (withdrawable_balance w)))
       = [Success]) /\
  (forall a : HistoryConstraint.BankAccount.t,
     is_finite (HistoryConstraint.BankAccount.balance a) = true ->
     HistoryConstraint.BankAccount.withdraw a
       (HistoryConstraint.BankAccount.balance a)
     = ({| HistoryConstraint.BankAccount.balance := 0 |},
        Returned [AmountWithdrawn 0])).
Proof.
  split.
  - intros w Hf.
    assert (E : (withdrawable_balance w >=? withdrawable_balance w) = true).
    { unfold geb. apply Binary64Order.leb_refl.
      apply Binary64Order.is_finite_not_nan. exact Hf. }
    destruct (withdrawable_withdraw_funded w _ E) as [-> ->].
    split; [apply Binary64Order.sub_self; exact Hf | reflexivity].
  - intros a Hf. unfold HistoryConstraint.BankAccount.withdraw.
    rewrite (Binary64Order.sub_self _ Hf). reflexivity.
Qed.

Lemma withdraw_whole_balance_witness :
  is_finite 100 = true /\
  HistoryConstraint.BankAccount.withdraw
    {| HistoryConstraint.BankAccount.balance := 100 |} 100
  = ({| HistoryConstraint.BankAccount.balance := 0 |},
     Returned [AmountWithdrawn 0]).
Proof.
  split; [reflexivity|].
  apply (proj2 withdraw_whole_balance
           {| HistoryConstraint.BankAccount.balance := 100 |}).
  reflexivity.
Defined.

(** X12: on an empty savings or current account, [deposit(a)] followed
    by [withdraw(a)] is accepted and returns to balance 0, for every
    finite amount [a]. *)
Theorem deposit_then_withdraw_same_amount
    (w : WithdrawableObject) (amount : float) :
  withdrawable_balance w = 0 -> is_finite amount = true ->
  withdrawable_balance
    (fst (perform_all w [Deposit amount; Withdraw amount])) = 0 /\
  snd (perform_all w [Deposit amount; Withdraw amount])
    = [[Success]; [Success]].
Proof.
  intros Hz Hf.
  destruct (Binary64Order.zero_add_sub amount Hf) as [Hle Hsub].
  destruct (withdrawable_deposit_balance w amount) as [Hb Hout].
  rewrite Hz in Hb, Hout.
  cbn [perform_all perform].
  destruct (deposit w amount) as [w1 out1]. cbn [fst snd] in Hb, Hout.
  assert (E : (withdrawable_balance w1 >=? amount) = true)
    by (unfold geb; rewrite Hb; exact Hle).
  destruct (withdrawable_withdraw_funded w1 amount E) as [Hb2 Hout2].
  destruct (withdraw w1 amount) as [w2 out2]. cbn [fst snd] in *.
  rewrite Hb2, Hb, Hsub, Hout, Hout2. split; reflexivity.
Qed.

Lemma deposit_then_withdraw_same_amount_witness :
  withdrawable_balance (OfCurrent CurrentAccount.new) = 0 /\
  is_finite 250.75 = true /\
  withdrawable_balance
    (fst (perform_all (OfCurrent CurrentAccount.new)
            [Deposit 250.75; Withdraw 250.75])) = 0.
Proof.
  split; [reflexivity|]. split; [reflexivity|].
  apply (deposit_then_withdraw_same_amount (OfCurrent CurrentAccount.new) 250.75);
    reflexivity.
Defined.

(** ** The client on accounts in credit *)

Lemma round_trip_funded (w : WithdrawableObject) :
  (0 <=? withdrawable_balance w) = true ->
  Callers.round_trip_output w
    = [Deposited 1000 (account_name (OfWithdrawable w))
         (withdrawable_balance w + 1000);
       Withdrawn 500 (account_name (OfWithdrawable w))
         (withdrawable_balance w + 1000 - 500)] /\
  withdrawable_balance (Callers.round_trip w)
    = withdrawable_balance w + 1000 - 500.
Proof.
  intros Hb. unfold Callers.round_trip_output, Callers.round_trip.
  destruct (withdrawable_deposit_balance w 1000) as [Hb1 Hout1].
  assert (Hname : account_name (OfWithdrawable (fst (deposit w 1000)))
                  = account_name (OfWithdrawable w))
    by (destruct w; reflexivity).
  assert (E : (withdrawable_balance (fst (deposit w 1000)) >=? 500) = true).
  { unfold geb. rewrite Hb1.
    apply Binary64Order.add_lower_bound; [exact Hb | reflexivity]. }
  destruct (withdrawable_withdraw_funded _ 500 E) as [Hb2 Hout2].
  rewrite Hout1, Hout2, Hb2, Hb1, Hname. split; reflexivity.
Qed.

Lemma deposit_only_output (d : DepositOnlyObject) (amount : float) :
  snd (deposit d amount)
  = [Deposited amount (account_name d) (deposit_only_balance d + amount)].
Proof. destruct d as [f|[s|c]]; reflexivity. Qed.

(** X13: when every account of the withdrawable vector has a balance
    [>= 0], [processTransactions] never meets the insufficient-funds
    branch: no notice is printed, whatever the balances are beyond
    that. *)
Theorem processTransactions_never_refused
    (client : BankClient WithdrawableObject DepositOnlyObject) :
  Forall (fun w => (0 <=? withdrawable_balance w) = true)
    (withdrawableAccounts client) ->
  existsb Callers.is_notice (snd (processTransactions client)) = false.
Proof.
  intros Hall. unfold processTransactions.
  rewrite process_withdrawable_eq, process_deposit_only_eq. cbn [snd].
  rewrite existsb_app. apply orb_false_iff. split.
  - induction Hall as [|w ws Hw _ IH]; [reflexivity|].
    cbn [flat_map]. rewrite existsb_app, IH, orb_false_r.
    destruct (round_trip_funded w Hw) as [Hout _].
    unfold Callers.round_trip_output in Hout. rewrite Hout. reflexivity.
  - induction (depositOnlyAccounts client) as [|d ds IH]; [reflexivity|].
    cbn [flat_map]. rewrite existsb_app, IH, orb_false_r, deposit_only_output.
    reflexivity.
Qed.

Lemma processTransactions_never_refused_witness :
  Forall (fun w => (0 <=? withdrawable_balance w) = true)
    [OfSaving SavingAccount.new; OfCurrent {| CurrentAccount.balance := 42 |}]
  /\
  existsb Callers.is_notice
    (snd (processTransactions
            {| withdrawableAccounts :=
                 [OfSaving SavingAccount.new;
                  OfCurrent {| CurrentAccount.balance := 42 |}];
               depositOnlyAccounts := [OfFixedTerm FixedTermAccount.new] |}))
    = false.
Proof.
  assert (H : Forall (fun w => (0 <=? withdrawable_balance w) = true)
                [OfSaving SavingAccount.new;
                 OfCurrent {| CurrentAccount.balance := 42 |}])
    by (repeat constructor).
  split; [exact H|].
  exact (processTransactions_never_refused
           {| withdrawableAccounts :=
                [OfSaving SavingAccount.new;
                 OfCurrent {| CurrentAccount.balance := 42 |}];
              depositOnlyAccounts := [OfFixedTerm FixedTermAccount.new] |} H).
Defined.

(** X14: [processTransactions] keeps the class invariant of every
    account it is given: balances that are not negative before the run
    are not negative after it, in both vectors. *)
Theorem processTransactions_keeps_not_negative
    (client : BankClient WithdrawableObject DepositOnlyObject) :
  Forall (fun w => not_negative (withdrawable_balance w))
    (withdrawableAccounts client) ->
  Forall (fun d => not_negative (deposit_only_balance d))
    (depositOnlyAccounts client) ->
  Forall (fun w => not_negative (withdrawable_balance w))
    (withdrawableAccounts (fst (processTransactions client))) /\
  Forall (fun d => not_negative (deposit_only_balance d))
    (depositOnlyAccounts (fst (processTransactions client))).
Proof.
  intros Hw Hd. unfold processTransactions.
  rewrite process_withdrawable_eq, process_deposit_only_eq.
  cbn [fst withdrawableAccounts depositOnlyAccounts]. split.
  - apply Forall_map. revert Hw. apply Forall_impl. intros w Hb.
    apply withdrawable_withdraw_not_negative.
    apply withdrawable_deposit_not_negative; [reflexivity | exact Hb].
  - apply Forall_map. revert Hd. apply Forall_impl. intros d Hb.
    replace (deposit_only_balance (fst (deposit d 5000)))
      with (deposit_only_balance d + 5000)
      by (destruct d as [f|[s|c]]; reflexivity).
    apply Binary64Facts.add_not_negative; [exact Hb | reflexivity].
Qed.

Lemma processTransactions_keeps_not_negative_witness :
  Forall (fun w => not_negative (withdrawable_balance w))
    (withdrawableAccounts
       (fst (processTransactions
               {| withdrawableAccounts := [OfSaving SavingAccount.new];
                  depositOnlyAccounts := [OfFixedTerm FixedTermAccount.new] |}))).
Proof.
  apply (processTransactions_keeps_not_negative
           {| withdrawableAccounts := [OfSaving SavingAccount.new];
              depositOnlyAccounts := [OfFixedTerm FixedTermAccount.new] |});
    repeat constructor.
Defined.



(** ** The client with its pointers *)

Module StoreFacts.
Import LSPFollowedStore.

Lemma nth_error_assign_same (h : store) (p : pointer) (x o : DepositOnlyObject) :
  nth_error h p = Some x -> nth_error (assign h p o) p = Some o.
Proof.
  revert p. induction h as [|y h IH]; intros [|p] H; try discriminate.
  - reflexivity.
  - cbn in *. apply IH. exact H.
Qed.

Lemma nth_error_assign_other (h : store) (p q : pointer) (o : DepositOnlyObject) :
  q <> p -> nth_error (assign h p o) q = nth_error h q.
Proof.
  revert p q. induction h as [|y h IH]; intros [|p] [|q] H;
    try reflexivity; try congruence.
  cbn. apply IH. congruence.
Qed.

Lemma length_assign (h : store) (p : pointer) (o : DepositOnlyObject) :
  List.length (assign h p o) = List.length h.
Proof.
  revert p. induction h as [|y h IH]; intros [|p]; cbn; congruence.
Qed.

Lemma assign_assign (h : store) (p : pointer) (x y : DepositOnlyObject) :
  assign (assign h p x) p y = assign h p y.
Proof.
  revert p. induction h as [|z h IH]; intros [|p]; cbn; congruence.
Qed.

Lemma call_deposit_some (h : store) (p : pointer) (o : DepositOnlyObject)
    (amount : float) :
  nth_error h p = Some o ->
  call_deposit h p amount
  = Some (assign h p (fst (deposit o amount)), snd (deposit o amount)).
Proof.
  intros H. unfold call_deposit. rewrite H.
  destruct (deposit o amount). reflexivity.
Qed.

Lemma call_withdraw_some (h : store) (p : pointer) (w : WithdrawableObject)
    (amount : float) :
  nth_error h p = Some (OfWithdrawable w) ->
  call_withdraw h p amount
  = Some (assign h p (OfWithdrawable (fst (withdraw w amount))),
          snd (withdraw w amount)).
Proof.
  intros H. unfold call_withdraw. rewrite H.
  destruct (withdraw w amount). reflexivity.
Qed.

Lemma withdrawable_at_some (h : store) (p : pointer) (w : WithdrawableObject) :
  withdrawable_at h p = Some w <-> nth_error h p = Some (OfWithdrawable w).
Proof.
  unfold withdrawable_at.
  destruct (nth_error h p) as [[f|w']|]; split; congruence.
Qed.

(** One turn of the first loop, on a pointer to a withdrawable object. *)
Lemma process_withdrawable_cons (h : store) (p : pointer)
    (rest : list pointer) (w : WithdrawableObject) :
  nth_error h p = Some (OfWithdrawable w) ->
  process_withdrawable h (p :: rest)
  = match process_withdrawable
            (assign h p (OfWithdrawable (Callers.round_trip w))) rest with
    | None => None
    | Some (h3, out3) => Some (h3, Callers.round_trip_output w ++ out3)
    end.
Proof.
  intros H. cbn [process_withdrawable].
  rewrite (call_deposit_some h p _ 1000 H).
  assert (E : deposit (OfWithdrawable w) 1000
              = (OfWithdrawable (fst (deposit w 1000)), snd (deposit w 1000))).
  { destruct w; reflexivity. }
  rewrite E. cbn [fst snd].
  rewrite (call_withdraw_some _ p (fst (deposit w 1000)) 500)
    by (eapply nth_error_assign_same; exact H).
  rewrite assign_assign.
  unfold Callers.round_trip, Callers.round_trip_output.
  destruct (process_withdrawable _ rest) as [[h3 out3]|]; [|reflexivity].
  rewrite app_assoc. reflexivity.
Qed.

Lemma process_deposit_only_cons (h : store) (p : pointer)
    (rest : list pointer) (o : DepositOnlyObject) :
  nth_error h p = Some o ->
  process_deposit_only h (p :: rest)
  = match process_deposit_only (assign h p (fst (deposit o 5000))) rest with
    | None => None
    | Some (h2, out2) => Some (h2, snd (deposit o 5000) ++ out2)
    end.
Proof.
  intros H. cbn [process_deposit_only].
  rewrite (call_deposit_some h p _ 5000 H). reflexivity.
Qed.

(** What both loops keep: the size of the store, and every address the
    loop is not given. *)
Lemma process_withdrawable_frame (accs : list pointer) :
  forall (h h' : store) (out : list line),
  process_withdrawable h accs = Some (h', out) ->
  List.length h' = List.length h /\
  forall q, ~ In q accs -> nth_error h' q = nth_error h q.
Proof.
  induction accs as [|p rest IH]; intros h h' out H.
  - injection H as <- _. split; [reflexivity | intros; reflexivity].
  - cbn [process_withdrawable] in H.
    unfold call_deposit in H.
    destruct (nth_error h p) as [o|] eqn:Eo; [|discriminate].
    destruct (deposit o 1000) as [o1 out1].
    unfold call_withdraw in H.
    destruct (nth_error (assign h p o1) p) as [[f|w1]|] eqn:E1;
      try discriminate.
    destruct (withdraw w1 500) as [w2 out2].
    destruct (process_withdrawable _ rest) as [[h3 out3]|] eqn:E3;
      [|discriminate].
    injection H as <- _.
    destruct (IH _ _ _ E3) as [Hlen Hframe].
    split.
    + rewrite Hlen, !length_assign. reflexivity.
    + intros q Hq. cbn [In] in Hq.
      rewrite Hframe by tauto.
      rewrite !nth_error_assign_other by (intros ->; tauto).
      reflexivity.
Qed.

Lemma process_deposit_only_frame (accs : list pointer) :
  forall (h h' : store) (out : list line),
  process_deposit_only h accs = Some (h', out) ->
  List.length h' = List.length h /\
  forall q, ~ In q accs -> nth_error h' q = nth_error h q.
Proof.
  induction accs as [|p rest IH]; intros h h' out H.
  - injection H as <- _. split; [reflexivity | intros; reflexivity].
  - cbn [process_deposit_only] in H.
    unfold call_deposit in H.
    destruct (nth_error h p) as [o|] eqn:Eo; [|discriminate].
    destruct (deposit o 5000) as [o1 out1].
    destruct (process_deposit_only _ rest) as [[h2 out2]|] eqn:E2;
      [|discriminate].
    injection H as <- _.
    destruct (IH _ _ _ E2) as [Hlen Hframe].
    split.
    + rewrite Hlen, length_assign. reflexivity.
    + intros q Hq. cbn [In] in Hq.
      rewrite Hframe by tauto.
      rewrite nth_error_assign_other by (intros ->; tauto).
      reflexivity.
Qed.

(** The first loop on distinct pointers does to each object what the
    loop over the objects themselves does. *)
Lemma process_withdrawable_distinct (accs : list pointer) :
  forall (h : store) (ws : list WithdrawableObject),
  NoDup accs ->
  map (withdrawable_at h) accs = map Some ws ->
  exists h',
    process_withdrawable h accs
      = Some (h', flat_map Callers.round_trip_output ws) /\
    map (withdrawable_at h') accs = map Some (map Callers.round_trip ws).
Proof.
  induction accs as [|p rest IH]; intros h ws Hnd Hread.
  - destruct ws; [|discriminate]. exists h. split; reflexivity.
  - destruct ws as [|w ws]; [discriminate|].
    cbn [map] in Hread. injection Hread as Hp Hrest.
    apply withdrawable_at_some in Hp.
    inversion Hnd as [|? ? Hnotin Hnd']; subst.
    rewrite (process_withdrawable_cons h p rest w Hp).
    set (h1 := assign h p (OfWithdrawable (Callers.round_trip w))).
    assert (Hread1 : map (withdrawable_at h1) rest = map Some ws).
    { rewrite <- Hrest. apply map_ext_in. intros q Hq.
      unfold withdrawable_at, h1.
      rewrite nth_error_assign_other by (intros ->; contradiction).
      reflexivity. }
    destruct (IH h1 ws Hnd' Hread1) as (h' & Hrun & Hafter).
    exists h'. rewrite Hrun. split; [reflexivity|].
    cbn [map]. f_equal; [|exact Hafter].
    apply withdrawable_at_some.
    destruct (process_withdrawable_frame rest _ _ _ Hrun) as [_ Hframe].
    rewrite (Hframe p Hnotin). unfold h1.
    eapply nth_error_assign_same. exact Hp.
Qed.

Lemma process_deposit_only_distinct (accs : list pointer) :
  forall (h : store) (ds : list DepositOnlyObject),
  NoDup accs ->
  map (nth_error h) accs = map Some ds ->
  exists h',
    process_deposit_only h accs
      = Some (h', flat_map (fun d => snd (deposit d 5000)) ds) /\
    map (nth_error h') accs
      = map Some (map (fun d => fst (deposit d 5000)) ds).
Proof.
  induction accs as [|p rest IH]; intros h ds Hnd Hread.
  - destruct ds; [|discriminate]. exists h. split; reflexivity.
  - destruct ds as [|d ds]; [discriminate|].
    cbn [map] in Hread. injection Hread as Hp Hrest.
    inversion Hnd as [|? ? Hnotin Hnd']; subst.
    rewrite (process_deposit_only_cons h p rest d Hp).
    set (h1 := assign h p (fst (deposit d 5000))).
    assert (Hread1 : map (nth_error h1) rest = map Some ds).
    { rewrite <- Hrest. apply map_ext_in. intros q Hq. unfold h1.
      apply nth_error_assign_other. intros ->. contradiction. }
    destruct (IH h1 ds Hnd' Hread1) as (h' & Hrun & Hafter).
    exists h'. rewrite Hrun. split; [reflexivity|].
    cbn [map]. f_equal; [|exact Hafter].
    destruct (process_deposit_only_frame rest _ _ _ Hrun) as [_ Hframe].
    rewrite (Hframe p Hnotin). unfold h1.
    eapply nth_error_assign_same. exact Hp.
Qed.

Lemma assign_keeps_withdrawable (h : store) (p q : pointer)
    (w x w0 : WithdrawableObject) :
  nth_error h p = Some (OfWithdrawable w) ->
  withdrawable_at h q = Some w0 ->
  exists w', withdrawable_at (assign h p (OfWithdrawable x)) q = Some w'.
Proof.
  intros Hp Hq. destruct (Nat.eq_dec q p) as [->|Hne].
  - exists x. apply withdrawable_at_some.
    eapply nth_error_assign_same. exact Hp.
  - exists w0. unfold withdrawable_at in *.
    rewrite nth_error_assign_other by exact Hne. exact Hq.
Qed.

Lemma assign_keeps_allocated (h : store) (p q : pointer)
    (o x o0 : DepositOnlyObject) :
  nth_error h p = Some o ->
  nth_error h q = Some o0 ->
  exists o', nth_error (assign h p x) q = Some o'.
Proof.
  intros Hp Hq. destruct (Nat.eq_dec q p) as [->|Hne].
  - exists x. eapply nth_error_assign_same. exact Hp.
  - exists o0. rewrite nth_error_assign_other by exact Hne. exact Hq.
Qed.

Lemma process_withdrawable_succeeds (accs : list pointer) :
  forall h : store,
  Forall (fun p => exists w, withdrawable_at h p = Some w) accs ->
  exists h' out,
    process_withdrawable h accs = Some (h', out) /\
    (forall q o, nth_error h q = Some o -> exists o', nth_error h' q = Some o').
Proof.
  induction accs as [|p rest IH]; intros h Hall.
  - exists h, []. split; [reflexivity|]. intros q o Hq. exists o. exact Hq.
  - inversion Hall as [|? ? [w Hw] Hrest]; subst.
    apply withdrawable_at_some in Hw.
    rewrite (process_withdrawable_cons h p rest w Hw).
    set (h1 := assign h p (OfWithdrawable (Callers.round_trip w))).
    assert (Hall1 : Forall (fun q => exists w', withdrawable_at h1 q = Some w')
                      rest).
    { revert Hrest. apply Forall_impl. intros q [w0 Hq].
      exact (assign_keeps_withdrawable h p q w _ w0 Hw Hq). }
    destruct (IH h1 Hall1) as (h' & out & Hrun & Hkeep).
    exists h', (Callers.round_trip_output w ++ out).
    rewrite Hrun. split; [reflexivity|].
    intros q o Hq.
    destruct (assign_keeps_allocated h p q _
                (OfWithdrawable (Callers.round_trip w)) o Hw Hq) as [o1 Ho1].
    exact (Hkeep q o1 Ho1).
Qed.

Lemma process_deposit_only_succeeds (accs : list pointer) :
  forall h : store,
  Forall (fun p => exists o, nth_error h p = Some o) accs ->
  exists h' out, process_deposit_only h accs = Some (h', out).
Proof.
  induction accs as [|p rest IH]; intros h Hall.
  - exists h, []. reflexivity.
  - inversion Hall as [|? ? [o Ho] Hrest]; subst.
    rewrite (process_deposit_only_cons h p rest o Ho).
    set (h1 := assign h p (fst (deposit o 5000))).
    assert (Hall1 : Forall (fun q => exists o', nth_error h1 q = Some o') rest).
    { revert Hrest. apply Forall_impl. intros q [o0 Hq].
      exact (assign_keeps_allocated h p q o _ o0 Ho Hq). }
    destruct (IH h1 Hall1) as (h' & out & Hrun).
    exists h', (snd (deposit o 5000) ++ out). rewrite Hrun. reflexivity.
Qed.

End StoreFacts.

(** X16: [processTransactions] touches only the accounts its two vectors
    point to: the store keeps its size, and every other address holds
    after the run what it held before. *)
Theorem store_processTransactions_frame
    (h h' : LSPFollowedStore.store) (client : LSPFollowedStore.BankClient)
    (out : list line) :
  LSPFollowedStore.processTransactions h client = Some (h', out) ->
  List.length h' = List.length h /\
  forall q,
    ~ In q (LSPFollowedStore.withdrawableAccounts client) ->
    ~ In q (LSPFollowedStore.depositOnlyAccounts client) ->
    nth_error h' q = nth_error h q.
Proof.
  unfold LSPFollowedStore.processTransactions. intros H.
  destruct (LSPFollowedStore.process_withdrawable h _) as [[h1 out1]|] eqn:E1;
    [|discriminate].
  destruct (LSPFollowedStore.process_deposit_only h1 _) as [[h2 out2]|] eqn:E2;
    [|discriminate].
  injection H as <- _.
  destruct (StoreFacts.process_withdrawable_frame _ _ _ _ E1) as [L1 F1].
  destruct (StoreFacts.process_deposit_only_frame _ _ _ _ E2) as [L2 F2].
  split; [congruence|].
  intros q Hw Hd. rewrite (F2 q Hd). apply F1. exact Hw.
Qed.

Lemma store_processTransactions_frame_witness :
  LSPFollowedStore.processTransactions
    [OfWithdrawable (OfSaving SavingAccount.new);
     OfFixedTerm FixedTermAccount.new;
     OfWithdrawable (OfCurrent CurrentAccount.new)]
    {| LSPFollowedStore.withdrawableAccounts := [0%nat];
       LSPFollowedStore.depositOnlyAccounts := [1%nat] |}
  = Some ([OfWithdrawable (OfSaving {| SavingAccount.balance := 500 |});
           OfFixedTerm {| FixedTermAccount.balance := 5000 |};
           OfWithdrawable (OfCurrent CurrentAccount.new)],
          [Deposited 1000 "Savings" 1000; Withdrawn 500 "Savings" 500;
           Deposited 5000 "Fixed Term" 5000]) /\
  nth_error
    [OfWithdrawable (OfSaving {| SavingAccount.balance := 500 |});
     OfFixedTerm {| FixedTermAccount.balance := 5000 |};
     OfWithdrawable (OfCurrent CurrentAccount.new)] 2%nat
  = nth_error
      [OfWithdrawable (OfSaving SavingAccount.new);
       OfFixedTerm FixedTermAccount.new;
       OfWithdrawable (OfCurrent CurrentAccount.new)] 2%nat.
Proof.
  assert (H : LSPFollowedStore.processTransactions
    [OfWithdrawable (OfSaving SavingAccount.new);
     OfFixedTerm FixedTermAccount.new;
     OfWithdrawable (OfCurrent CurrentAccount.new)]
    {| LSPFollowedStore.withdrawableAccounts := [0%nat];
       LSPFollowedStore.depositOnlyAccounts := [1%nat] |}
  = Some ([OfWithdrawable (OfSaving {| SavingAccount.balance := 500 |});
           OfFixedTerm {| FixedTermAccount.balance := 5000 |};
           OfWithdrawable (OfCurrent CurrentAccount.new)],
          [Deposited 1000 "Savings" 1000; Withdrawn 500 "Savings" 500;
           Deposited 5000 "Fixed Term" 5000]))
    by (vm_compute; reflexivity).
  split; [exact H|].
  apply (proj2 (store_processTransactions_frame _ _ _ _ H)).
  - cbn. intros [E|[]]. discriminate.
  - cbn. intros [E|[]]. discriminate.
Defined.

(** X17: [processTransactions] runs to its end whenever every pointer of
    the withdrawable vector refers to a savings or current account and
    every pointer of the deposit-only vector to an allocated account;
    repeated and shared pointers are allowed. *)
Theorem store_processTransactions_succeeds
    (h : LSPFollowedStore.store) (client : LSPFollowedStore.BankClient) :
  Forall (fun p => exists w, LSPFollowedStore.withdrawable_at h p = Some w)
    (LSPFollowedStore.withdrawableAccounts client) ->
  Forall (fun p => exists o, nth_error h p = Some o)
    (LSPFollowedStore.depositOnlyAccounts client) ->
  exists h' out,
    LSPFollowedStore.processTransactions h client = Some (h', out).
Proof.
  intros Hw Hd. unfold LSPFollowedStore.processTransactions.
  destruct (StoreFacts.process_withdrawable_succeeds _ h Hw)
    as (h1 & out1 & -> & Hkeep).
  assert (Hd1 : Forall (fun p => exists o, nth_error h1 p = Some o)
                  (LSPFollowedStore.depositOnlyAccounts client)).
  { revert Hd. apply Forall_impl. intros p [o Ho]. exact (Hkeep p o Ho). }
  destruct (StoreFacts.process_deposit_only_succeeds _ h1 Hd1)
    as (h2 & out2 & ->).
  exists h2, (out1 ++ out2). reflexivity.
Qed.

Lemma store_processTransactions_succeeds_witness :
  exists h' out,
    LSPFollowedStore.processTransactions
      [OfWithdrawable (OfSaving SavingAccount.new)]
      {| LSPFollowedStore.withdrawableAccounts := [0%nat; 0%nat];
         LSPFollowedStore.depositOnlyAccounts := [0%nat] |}
    = Some (h', out).
Proof.
  apply store_processTransactions_succeeds.
  - repeat constructor; eexists; reflexivity.
  - repeat constructor; eexists; reflexivity.
Defined.

(** X18: when no account is listed twice, neither within a vector nor
    across the two, running [processTransactions] on the pointers gives
    the transcript and the final objects that running it on the objects
    themselves gives. *)
Theorem store_agrees_with_values
    (h : LSPFollowedStore.store) (accs_w accs_d : list LSPFollowedStore.pointer)
    (ws : list WithdrawableObject) (ds : list DepositOnlyObject) :
  NoDup (accs_w ++ accs_d) ->
  map (LSPFollowedStore.withdrawable_at h) accs_w = map Some ws ->
  map (nth_error h) accs_d = map Some ds ->
  exists h',
    LSPFollowedStore.processTransactions h
      {| LSPFollowedStore.withdrawableAccounts := accs_w;
         LSPFollowedStore.depositOnlyAccounts := accs_d |}
    = Some (h',
            snd (processTransactions
                   {| withdrawableAccounts := ws;
                      depositOnlyAccounts := ds |})) /\
    map (LSPFollowedStore.withdrawable_at h') accs_w
    = map Some
        (withdrawableAccounts
           (fst (processTransactions
                   {| withdrawableAccounts := ws;
                      depositOnlyAccounts := ds |}))) /\
    map (nth_error h') accs_d
    = map Some
        (depositOnlyAccounts
           (fst (processTransactions
                   {| withdrawableAccounts := ws;
                      depositOnlyAccounts := ds |}))).
Proof.
  intros Hnd Hw Hd.
  assert (Hndw : NoDup accs_w) by (eapply NoDup_app_remove_r; exact Hnd).
  assert (Hndd : NoDup accs_d) by (eapply NoDup_app_remove_l; exact Hnd).
  assert (Hdisj : forall q, In q accs_w -> ~ In q accs_d).
  { intros q Hq Hq'. revert Hnd Hq Hq'. clear.
    induction accs_w as [|p rest IH]; intros Hnd Hq Hq'; [contradiction|].
    cbn in Hnd. inversion Hnd as [|? ? Hnotin Hnd']; subst.
    destruct Hq as [->|Hq].
    - apply Hnotin. apply in_or_app. right. exact Hq'.
    - exact (IH Hnd' Hq Hq'). }
  unfold LSPFollowedStore.processTransactions, processTransactions.
  cbn [LSPFollowedStore.withdrawableAccounts
       LSPFollowedStore.depositOnlyAccounts
       withdrawableAccounts depositOnlyAccounts].
  rewrite process_withdrawable_eq, process_deposit_only_eq.
  cbn [fst snd withdrawableAccounts depositOnlyAccounts].
  destruct (StoreFacts.process_withdrawable_distinct accs_w h ws Hndw Hw)
    as (h1 & Hrun1 & Hafter1).
  destruct (StoreFacts.process_withdrawable_frame _ _ _ _ Hrun1) as [_ F1].
  assert (Hd1 : map (nth_error h1) accs_d = map Some ds).
  { rewrite <- Hd. apply map_ext_in. intros q Hq. apply F1.
    intros Hq'. exact (Hdisj q Hq' Hq). }
  destruct (StoreFacts.process_deposit_only_distinct accs_d h1 ds Hndd Hd1)
    as (h2 & Hrun2 & Hafter2).
  destruct (StoreFacts.process_deposit_only_frame _ _ _ _ Hrun2) as [_ F2].
  exists h2. rewrite Hrun1, Hrun2. split; [reflexivity|]. split.
  - transitivity (map (LSPFollowedStore.withdrawable_at h1) accs_w);
      [|exact Hafter1].
    apply map_ext_in. intros q Hq.
    unfold LSPFollowedStore.withdrawable_at.
    rewrite (F2 q (Hdisj q Hq)). reflexivity.
  - exact Hafter2.
Qed.

Lemma store_agrees_with_values_witness :
  NoDup ([0%nat; 1%nat] ++ [2%nat]) /\
  exists h',
    LSPFollowedStore.main
    = Some (h',
            snd (processTransactions
                   {| withdrawableAccounts :=
                        [OfSaving SavingAccount.new;
                         OfCurrent CurrentAccount.new];
                      depositOnlyAccounts :=
                        [OfFixedTerm FixedTermAccount.new] |})).
Proof.
  assert (H : NoDup ([0%nat; 1%nat] ++ [2%nat])).
  { repeat constructor; cbn; intuition discriminate. }
  split; [exact H|].
  destruct (store_agrees_with_values
              [OfWithdrawable (OfSaving SavingAccount.new);
               OfWithdrawable (OfCurrent CurrentAccount.new);
               OfFixedTerm FixedTermAccount.new]
              [0%nat; 1%nat] [2%nat]
              [OfSaving SavingAccount.new; OfCurrent CurrentAccount.new]
              [OfFixedTerm FixedTermAccount.new] H eq_refl eq_refl)
    as (h' & Hrun & _).
  exists h'. exact Hrun.
Defined.

(** X19: pointers may repeat.  An account listed twice in the
    withdrawable vector is deposited to and withdrawn from twice, the
    second time starting from the balance the first time left; an
    account listed in both vectors gets [deposit(1000)], [withdraw(500)]
    and then [deposit(5000)]. *)
Theorem store_shared_pointers
    (h : LSPFollowedStore.store) (p : LSPFollowedStore.pointer)
    (w : WithdrawableObject) :
  nth_error h p = Some (OfWithdrawable w) ->
  LSPFollowedStore.processTransactions h
    {| LSPFollowedStore.withdrawableAccounts := [p; p];
       LSPFollowedStore.depositOnlyAccounts := [] |}
  = Some (LSPFollowedStore.assign h p
            (OfWithdrawable (Callers.round_trip (Callers.round_trip w))),
          Callers.round_trip_output w
          ++ Callers.round_trip_output (Callers.round_trip w)) /\
  LSPFollowedStore.processTransactions h
    {| LSPFollowedStore.withdrawableAccounts := [p];
       LSPFollowedStore.depositOnlyAccounts := [p] |}
  = Some (LSPFollowedStore.assign h p
            (OfWithdrawable (fst (deposit (Callers.round_trip w) 5000))),
          Callers.round_trip_output w
          ++ snd (deposit (Callers.round_trip w) 5000)).
Proof.
  intros Hp.
  assert (Hp1 : nth_error
                  (LSPFollowedStore.assign h p
                     (OfWithdrawable (Callers.round_trip w))) p
                = Some (OfWithdrawable (Callers.round_trip w)))
    by (eapply StoreFacts.nth_error_assign_same; exact Hp).
  unfold LSPFollowedStore.processTransactions.
  cbn [LSPFollowedStore.withdrawableAccounts
       LSPFollowedStore.depositOnlyAccounts].
  split.
  - rewrite (StoreFacts.process_withdrawable_cons h p [p] w Hp).
    rewrite (StoreFacts.process_withdrawable_cons _ p [] _ Hp1).
    cbn [LSPFollowedStore.process_withdrawable
         LSPFollowedStore.process_deposit_only].
    rewrite StoreFacts.assign_assign, !app_nil_r. reflexivity.
  - rewrite (StoreFacts.process_withdrawable_cons h p [] w Hp).
    cbn [LSPFollowedStore.process_withdrawable].
    rewrite (StoreFacts.process_deposit_only_cons _ p [] _ Hp1).
    cbn [LSPFollowedStore.process_deposit_only].
    rewrite StoreFacts.assign_assign, !app_nil_r.
    assert (E : deposit (OfWithdrawable (Callers.round_trip w)) 5000
                = (OfWithdrawable (fst (deposit (Callers.round_trip w) 5000)),
                   snd (deposit (Callers.round_trip w) 5000)))
      by (destruct (Callers.round_trip w); reflexivity).
    rewrite E. reflexivity.
Qed.

Lemma store_shared_pointers_witness :
  nth_error [OfWithdrawable (OfSaving SavingAccount.new)] 0%nat
    = Some (OfWithdrawable (OfSaving SavingAccount.new)) /\
  LSPFollowedStore.processTransactions
    [OfWithdrawable (OfSaving SavingAccount.new)]
    {| LSPFollowedStore.withdrawableAccounts := [0%nat; 0%nat];
       LSPFollowedStore.depositOnlyAccounts := [] |}
  = Some (LSPFollowedStore.assign
            [OfWithdrawable (OfSaving SavingAccount.new)] 0%nat
            (OfWithdrawable
               (Callers.round_trip
                  (Callers.round_trip (OfSaving SavingAccount.new)))),
          Callers.round_trip_output (OfSaving SavingAccount.new)
          ++ Callers.round_trip_output
               (Callers.round_trip (OfSaving SavingAccount.new))).
Proof.
  split; [reflexivity|].
  apply (proj1 (store_shared_pointers
                  [OfWithdrawable (OfSaving SavingAccount.new)] 0%nat
                  (OfSaving SavingAccount.new) eq_refl)).
Defined.

(** The pointer version of [main] prints what the value version prints. *)
Example store_main_transcript :
  option_map snd LSPFollowedStore.main = Some (snd LSPFollowed.main).
Proof. vm_compute. reflexivity. Qed.
